(** * Pixshop: edit history, session persistence and mask capture

    A shallow embedding of the client-side core of the Pixshop photo editor
    ([src/App.tsx], [utils/storage], [services/geminiService],
    [components/MagicPanel], [components/BatchProcessor],
    [components/LiveAssistant]) together with the properties its
    specification states about it and further properties of the code.

    Conventions of the embedding.
    - React state variables are fields of records; a handler is a function
      from the state it closes over to the state after its updates are
      committed.  The updates made by one run of a handler are committed
      together.
    - A handler with an [await] is given twice: as one function, with the
      outcome of the awaited promise as an argument, which is the handler
      when nothing happens in between; and in two parts, up to the [await]
      and from there on, for the transition system of the editor, in which
      calls and requests to IndexedDB are in flight while other events
      arrive.
    - JavaScript numbers that only ever hold integers are [Z]; pointer
      coordinates and alpha values are [Q], the alpha of a pixel being a
      multiple of 1/255.
    - The browser (IndexedDB, the console, the remote API, the clock, the
      work in flight) is an explicit [World] threaded through the
      handlers. *)

From Stdlib Require Import ZArith QArith Qround Lia Lqa String Ascii.
From stdpp Require Import base option list strings pretty gmap.

Local Open Scope string_scope.
Local Open Scope list_scope.
Local Open Scope Z_scope.

(** ** JavaScript values used by the program *)

Module Js.

(** A value that was thrown: [e instanceof Error] with its message, or
    anything else. *)
Inductive Thrown : Type :=
| ErrorObj (message : string)
| OtherValue.

(** Result of evaluating code that may throw, and of a settled promise. *)
Inductive Completion (A : Type) : Type :=
| Normal (a : A)
| Throw (e : Thrown).
Arguments Normal {A} a.
Arguments Throw {A} e.

(** [Array.prototype.slice(start, end)]: negative indices count from the
    end, everything is clamped to the array. *)
Definition relative_index (len k : Z) : Z :=
  if k <? 0 then Z.max (len + k) 0 else Z.min k len.

Definition slice {A} (l : list A) (start stop : Z) : list A :=
  let len := Z.of_nat (length l) in
  let from := relative_index len start in
  let to := relative_index len stop in
  take (Z.to_nat (to - from)) (drop (Z.to_nat from) l).

(** [arr[i] ?? null] for an integer [i]. *)
Definition index {A} (l : list A) (i : Z) : option A :=
  if i <? 0 then None else l !! Z.to_nat i.

(** Truthiness of a string: the empty string is falsy. *)
Definition truthy (s : string) : bool :=
  match s with EmptyString => false | String _ _ => true end.

(** [String.prototype.trim]: white space and line terminators that fit
    in one byte (TAB, LF, VT, FF, CR, SPACE, NBSP). *)
Definition is_white_space (c : ascii) : bool :=
  bool_decide (N_of_ascii c ∈ [9; 10; 11; 12; 13; 32; 160]%N).

Fixpoint trim_start (s : string) : string :=
  match s with
  | String c r => if is_white_space c then trim_start r else s
  | EmptyString => EmptyString
  end.

Fixpoint trim_end (s : string) : string :=
  match s with
  | String c r =>
      match trim_end r with
      | EmptyString => if is_white_space c then EmptyString else String c EmptyString
      | r' => String c r'
      end
  | EmptyString => EmptyString
  end.

Definition trim (s : string) : string := trim_end (trim_start s).

(** [s.split(',')]. *)
Fixpoint split_comma (s : string) : list string :=
  match s with
  | EmptyString => [EmptyString]
  | String c r =>
      if Ascii.eqb c "," then EmptyString :: split_comma r
      else match split_comma r with
           | piece :: pieces => String c piece :: pieces
           | [] => [String c EmptyString]
           end
  end.

(** The regular expression [/:(.*?);/]: group 1 of the leftmost match.
    [.] does not match a line terminator. *)
Definition is_line_terminator (c : ascii) : bool :=
  bool_decide (N_of_ascii c ∈ [10; 13]%N).

Fixpoint lazy_until_semicolon (s : string) : option string :=
  match s with
  | EmptyString => None
  | String c r =>
      if Ascii.eqb c ";" then Some EmptyString
      else if is_line_terminator c then None
      else String c <$> lazy_until_semicolon r
  end.

Fixpoint match_mime (s : string) : option string :=
  match s with
  | EmptyString => None
  | String c r =>
      if Ascii.eqb c ":" then
        match lazy_until_semicolon r with
        | Some m => Some m
        | None => match_mime r
        end
      else match_mime r
  end.

(** [atob]: forgiving base64 decoding. *)
Definition b64_value (c : ascii) : option N :=
  let n := N_of_ascii c in
  (if (65 <=? n) && (n <=? 90) then Some (n - 65)
   else if (97 <=? n) && (n <=? 122) then Some (n - 71)
   else if (48 <=? n) && (n <=? 57) then Some (n + 4)
   else if n =? 43 then Some 62
   else if n =? 47 then Some 63
   else None)%N.

Definition is_b64_space (c : ascii) : bool :=
  bool_decide (N_of_ascii c ∈ [9; 10; 12; 13; 32]%N).

Definition byte_of (n : N) : ascii := ascii_of_N (N.land n 255).

Fixpoint decode_sextets (l : list N) : list ascii :=
  match l with
  | a :: b :: c :: d :: r =>
      let w := N.lor (N.shiftl a 18) (N.lor (N.shiftl b 12) (N.lor (N.shiftl c 6) d)) in
      byte_of (N.shiftr w 16) :: byte_of (N.shiftr w 8) :: byte_of w :: decode_sextets r
  | [a; b; c] =>
      let w := N.shiftr (N.lor (N.shiftl a 12) (N.lor (N.shiftl b 6) c)) 2 in
      [byte_of (N.shiftr w 8); byte_of w]
  | [a; b] => [byte_of (N.shiftr (N.lor (N.shiftl a 6) b) 4)]
  | _ => []
  end.

Definition strip_padding (l : list ascii) : list ascii :=
  if bool_decide (length l `mod` 4 = 0)%nat then
    match reverse l with
    | "="%char :: "="%char :: r => reverse r
    | "="%char :: r => reverse r
    | _ => l
    end
  else l.

Definition atob (s : string) : Completion (list ascii) :=
  let data := strip_padding (filter (λ c, is_b64_space c = false) (list_ascii_of_string s)) in
  if bool_decide (length data `mod` 4 = 1)%nat
  then Throw (ErrorObj "The string to be decoded is not correctly encoded.")
  else match mapM b64_value data with
       | Some sextets => Normal (decode_sextets sextets)
       | None => Throw (ErrorObj "The string to be decoded is not correctly encoded.")
       end.

End Js.
Import Js.

(** ** Files and data URLs *)

(** A [File]: the bytes, the name and the MIME type it was built with. *)
Record File : Type := mkFile {
  file_bits : list ascii;
  file_name : string;
  file_type : string;
}.

(** [new File(bits, name, {type})].  The constructor does not keep the type
    as it is given: a type with a character outside U+0020..U+007E becomes
    the empty string, any other type is converted to ASCII lower case. *)
Definition is_printable (c : ascii) : bool :=
  (32 <=? N_of_ascii c)%N && (N_of_ascii c <=? 126)%N.

Definition to_lower (c : ascii) : ascii :=
  if (65 <=? N_of_ascii c)%N && (N_of_ascii c <=? 90)%N
  then ascii_of_N (N_of_ascii c + 32) else c.

Definition blob_type (type : string) : string :=
  if forallb is_printable (list_ascii_of_string type)
  then string_of_list_ascii (map to_lower (list_ascii_of_string type))
  else "".

Definition new_File (bits : list ascii) (name type : string) : File :=
  mkFile bits name (blob_type type).

(** [dataURLtoFile] of App.tsx. *)
Definition dataURLtoFile (dataurl filename : string) : Completion File :=
  let arr := split_comma dataurl in
  match arr with
  | head :: data :: _ =>
      match match_mime head with
      | Some mime =>
          if truthy mime then
            match atob data with
            | Normal u8arr => Normal (new_File u8arr filename mime)
            | Throw e => Throw e
            end
          else Throw (ErrorObj "Could not parse MIME type from data URL")
      | None => Throw (ErrorObj "Could not parse MIME type from data URL")
      end
  | _ => Throw (ErrorObj "Invalid data URL")
  end.

(** ** The mask canvas

    The bitmap of the mask canvas is kept as the list of drawing commands
    issued on it since it was last blank, oldest first; the alpha of a pixel
    is obtained by replaying them.  Only the alpha channel is tracked: every
    paint of the program is white. *)

Module Canvas.

Record Point : Type := mkPoint { px : Q; py : Q }.

Inductive PaintOp : Type :=
| FillArc (centre : Point) (radius : Q)
    (* beginPath(); arc(x, y, radius, 0, 2π); fill() *)
| StrokeLine (from to : Point) (lineWidth : Q)
    (* beginPath(); moveTo(from); lineTo(to); stroke() with lineCap = 'round' *)
| ClearRect (x y w h : Q).

Record Raster : Type := mkRaster {
  width : Z;
  height : Z;
  ops : list PaintOp;
}.

Definition blank (w h : Z) : Raster := mkRaster w h [].

(** The alpha of [fillStyle]/[strokeStyle] ['rgba(255,255,255,0.8)']. *)
Definition paint_alpha : Q := 8 # 10.

(** The bitmap keeps the alpha of a pixel in 8 bits: what is written to it
    is stored as the nearest multiple of 1/255. *)
Definition store8 (x : Q) : Q := Qfloor (x * 255 + (1 # 2)) # 255.

(** The values a bitmap can hold. *)
Definition stored (a : Q) : Prop := exists k : Z, 0 <= k <= 255 /\ (a == k # 255)%Q.

(** Default [globalCompositeOperation] (source-over) on the alpha channel:
    a source of alpha [s] drawn over a pixel of stored alpha [a], and what
    the bitmap stores of the result. *)
Definition source_over (s a : Q) : Q := store8 (s + a * (1 - s)).

Definition sq (x : Q) : Q := (x * x)%Q.

Definition dist2 (p q : Point) : Q := (sq (px p - px q) + sq (py p - py q))%Q.

Definition clamp01 (t : Q) : Q :=
  if Qle_bool t 0 then 0%Q else if Qle_bool 1 t then 1%Q else t.

(** Squared distance from [p] to the segment [a b], for [a] different
    from [b]. *)
Definition dist2_segment (p a b : Point) : Q :=
  let len2 := dist2 a b in
  let dot := ((px p - px a) * (px b - px a) + (py p - py a) * (py b - py a))%Q in
  let t := clamp01 (dot / len2) in
  dist2 p (mkPoint (px a + t * (px b - px a)) (py a + t * (py b - py a))).

(** The sample point of pixel [(i, j)] is its centre. *)
Definition centre_of (pixel : Z * Z) : Point :=
  mkPoint (inject_Z (fst pixel) + (1 # 2)) (inject_Z (snd pixel) + (1 # 2)).

Definition in_rect (p : Point) (x y w h : Q) : bool :=
  Qle_bool x (px p) && Qle_bool (px p) (x + w) &&
  Qle_bool y (py p) && Qle_bool (py p) (y + h).

(** A rasteriser without anti-aliasing: a pixel is covered when its
    centre lies in the shape.  A line of zero length is pruned before
    stroking and paints nothing. *)
Definition hard_coverage (op : PaintOp) (pixel : Z * Z) : Q :=
  let p := centre_of pixel in
  match op with
  | FillArc c r => if Qle_bool (dist2 p c) (sq r) then 1 else 0
  | StrokeLine a b w =>
      if Qeq_bool (dist2 a b) 0 then 0
      else if Qle_bool (dist2_segment p a b) (sq (w / 2)) then 1 else 0
  | ClearRect x y w h => if in_rect p x y w h then 1 else 0
  end%Q.

Section Rasteriser.

(** The fraction of a pixel covered by a command, in [0, 1]; what it is
    at the edge of a shape is the browser's business. *)
Variable coverage : PaintOp -> Z * Z -> Q.

Definition apply_op (op : PaintOp) (pixel : Z * Z) (a : Q) : Q :=
  match op with
  | FillArc _ _ | StrokeLine _ _ _ =>
      source_over (paint_alpha * coverage op pixel) a
  | ClearRect _ _ _ _ => store8 (a * (1 - coverage op pixel))
  end.

Definition in_bounds (r : Raster) (pixel : Z * Z) : bool :=
  (0 <=? fst pixel) && (fst pixel <? width r) &&
  (0 <=? snd pixel) && (snd pixel <? height r).

Definition alpha_of (commands : list PaintOp) (pixel : Z * Z) : Q :=
  foldl (fun a op => apply_op op pixel a) 0%Q commands.

Definition alpha_at (r : Raster) (pixel : Z * Z) : Q :=
  if in_bounds r pixel then alpha_of (ops r) pixel else 0%Q.

End Rasteriser.

(** Drawing on the raster. *)
Definition draw (op : PaintOp) (r : Raster) : Raster :=
  mkRaster (width r) (height r) (ops r ++ [op]).

(** The canvas element: where it sits in the viewport, whether a 2d
    context can be had, the [lineWidth] of that context (1 at first) and
    its bitmap. *)
Record Element : Type := mkElement {
  rect_left : Q;
  rect_top : Q;
  context2d : bool;
  lineWidth : Q;
  bitmap : Raster;
}.

Definition with_bitmap (r : Raster) (c : Element) : Element :=
  mkElement (rect_left c) (rect_top c) (context2d c) (lineWidth c) r.

(** [ctx.lineWidth = v]: zero and negative values are ignored. *)
Definition set_lineWidth (v : Q) (c : Element) : Element :=
  if Qle_bool v 0 then c
  else mkElement (rect_left c) (rect_top c) (context2d c) v (bitmap c).

End Canvas.
Import Canvas.

(** ** Application state ([App] component of App.tsx) *)

Inductive ToolMode : Type :=
| retouch | magic | adjust | filters | crop_mode | generate | video | analyze.

Inductive ToastType : Type := toast_error | toast_success | toast_info.

Record ToastMessage : Type := mkToast {
  toast_id : string;
  toast_message : string;
  toast_type : ToastType;
}.

(** Types of types.ts. *)
Inductive AspectRatio : Type := ar_1_1 | ar_3_4 | ar_4_3 | ar_9_16 | ar_16_9.
Inductive ImageSize : Type := size_1K | size_2K | size_4K.

(** ['16:9' | '9:16'] of [generateVeoVideo]. *)
Inductive VideoAspect : Type := video_16_9 | video_9_16.

(** The rectangle of react-image-crop: position and size. *)
Record CropRect : Type := mkCrop { crop_x : Q; crop_y : Q; crop_width : Q; crop_height : Q }.

(** The [<img>] element behind [imgRef]. *)
Record ImgElement : Type := mkImg {
  naturalWidth : Z;
  naturalHeight : Z;
  clientWidth : Z;
  clientHeight : Z;
}.

(** "History & Image State". *)
Record HistoryState : Type := mkHistory {
  history : list File;
  historyIndex : Z;
}.

(** "Tool State". *)
Record ToolState : Type := mkTool {
  activeTool : ToolMode;
  prompt : string;
  isLoading : bool;
  toasts : list ToastMessage;
}.

(** "Feature Specific State".  [maskDataUrl] holds the data URL returned by
    [canvas.toDataURL()]; it is represented by the raster it encodes.  Such a
    URL is never the empty string, so it is falsy exactly when it is [null]. *)
Record FeatureState : Type := mkFeature {
  editHotspot : option (Z * Z);
  displayHotspot : option (Q * Q);
  crop : option CropRect;
  completedCrop : option CropRect;
  aspect : option Q;
  magicPrompt : string;
  isMasking : bool;
  maskDataUrl : option Raster;
  brushSize : Q;
  videoResult : option string;
  analysisResult : option string;
  groundingChunks : option (list string);
}.

(** "Refs". *)
Record Refs : Type := mkRefs {
  imgRef : option ImgElement;
  maskCanvasRef : option Element;
  isDrawingRef : bool;
  lastPositionRef : option Point;
}.

Record App : Type := mkApp {
  hist : HistoryState;
  tool : ToolState;
  feat : FeatureState;
  refs : Refs;
}.

Definition with_hist (h : HistoryState) (st : App) : App :=
  mkApp h (tool st) (feat st) (refs st).
Definition with_tool (t : ToolState) (st : App) : App :=
  mkApp (hist st) t (feat st) (refs st).
Definition with_feat (f : FeatureState) (st : App) : App :=
  mkApp (hist st) (tool st) f (refs st).
Definition with_refs (r : Refs) (st : App) : App :=
  mkApp (hist st) (tool st) (feat st) r.

(** The values of the [useState]/[useRef] initialisers. *)
Definition initial : App :=
  mkApp (mkHistory [] (-1))
        (mkTool retouch "" false [])
        (mkFeature None None None None None "" false None 40 None None None)
        (mkRefs None None false None).

(** [const currentImage = history[historyIndex] ?? null] and
    [const originalImage = history[0] ?? null]. *)
Definition currentImage (st : App) : option File :=
  index (history (hist st)) (historyIndex (hist st)).

Definition originalImage (st : App) : option File :=
  index (history (hist st)) 0.

(** ** The browser and the remote service *)

(** The mask file of a fill request: the mask image drawn, scaled to the
    given size, over a black rectangle. *)
Record MaskFile : Type := mkMaskFile {
  mask_width : Z;
  mask_height : Z;
  mask_source : Raster;
}.

(** One constructor per exported generator of services/geminiService that
    the editor calls through [handleGenAction]. *)
Inductive Request : Type :=
| generateEditedImage (originalImage : File) (userPrompt : string) (hotspot : Z * Z)
| generateFilteredImage (originalImage : File) (filterPrompt : string)
| generateAdjustedImage (originalImage : File) (adjustmentPrompt : string)
| generateRemovedBackgroundImage (originalImage : File)
| generateMagicFillImage (originalImage : File) (maskImage : MaskFile) (userPrompt : string)
| generateNewImage (prompt : string) (aspectRatio : AspectRatio) (imageSize : ImageSize)
| generateVeoVideo (prompt : string) (aspectRatio : VideoAspect) (image : option File).

(** [SessionState] of utils/storage. *)
Record SessionState : Type := mkSession {
  session_id : string;
  session_history : list File;
  currentIndex : Z;
  timestamp : Z;
}.

Inductive LogEntry : Type :=
| console_warn (e : Thrown)
| console_error (e : Thrown).

(** How a request to IndexedDB ends (opening the database, then the one
    request of the transaction; either can fail). *)
Inductive Io : Type := io_ok | io_fail (e : Thrown).

(** A call that has not settled yet.  For a generator called through
    [handleGenAction]: the [history] and [historyIndex] of the render in
    which that [handleGenAction] was created, which are the ones its
    [addToHistory] closed over, and the name the file will get.  For
    [analyzeImage], nothing: the rest of [handleAnalysis] reads no state. *)
Inductive Call : Type :=
| GenCall (closure : HistoryState) (filename : string)
| AnalysisCall.

(** A request to IndexedDB that has not completed yet, with the way it
    will end, and whether the page that made it is still there to run what
    follows the request. *)
Inductive IdbRequest : Type :=
| PutSession (history : list File) (currentIndex : Z)   (* saveSession *)
| GetSession                                            (* loadSession *)
| DeleteSession.                                        (* clearSession *)

Record IdbJob : Type := mkJob {
  job_request : IdbRequest;
  job_io : Io;
  job_attached : bool;
}.

(** What lies outside the component: the object store ['session'] of
    IndexedDB (keyed by [id]), the console, the rejections nobody handled,
    the calls made to the remote service, [Date.now()], and the work in
    flight: the calls that have not settled, the requests to IndexedDB that
    have not completed (oldest first; they complete in the order in which
    they were made), and, for each live session of the voice assistant, the
    [history] and [historyIndex] of the render that mounted it. *)
Record World : Type := mkWorld {
  db : gmap string SessionState;
  console : list LogEntry;
  unhandled : list Thrown;
  requests : list Request;
  now : Z;
  calls : list Call;
  idb : list IdbJob;
  sessions : list HistoryState;
}.

Definition with_db (d : gmap string SessionState) (w : World) : World :=
  mkWorld d (console w) (unhandled w) (requests w) (now w) (calls w) (idb w) (sessions w).
Definition log (entry : LogEntry) (w : World) : World :=
  mkWorld (db w) (console w ++ [entry]) (unhandled w) (requests w) (now w)
          (calls w) (idb w) (sessions w).
Definition unhandled_rejection (e : Thrown) (w : World) : World :=
  mkWorld (db w) (console w) (unhandled w ++ [e]) (requests w) (now w)
          (calls w) (idb w) (sessions w).
Definition send (r : Request) (w : World) : World :=
  mkWorld (db w) (console w) (unhandled w) (requests w ++ [r]) (now w)
          (calls w) (idb w) (sessions w).
Definition with_calls (c : list Call) (w : World) : World :=
  mkWorld (db w) (console w) (unhandled w) (requests w) (now w) c (idb w) (sessions w).
Definition with_idb (q : list IdbJob) (w : World) : World :=
  mkWorld (db w) (console w) (unhandled w) (requests w) (now w) (calls w) q (sessions w).
Definition with_sessions (s : list HistoryState) (w : World) : World :=
  mkWorld (db w) (console w) (unhandled w) (requests w) (now w) (calls w) (idb w) s.

Definition fresh_world (t : Z) : World := mkWorld ∅ [] [] [] t [] [] [].

(** ** Session persistence (utils/storage)

    Each function opens the database and performs one request; either can
    fail.  The outcome of the IndexedDB round trip is an argument; the
    functions below are the request carried out. *)

Module Storage.

Definition session_key : string := "current_session".

Definition saveSession (io : Io) (history : list File) (currentIndex : Z) (w : World)
  : Completion unit * World :=
  match io with
  | io_ok =>
      let session := mkSession session_key history currentIndex (now w) in
      (Normal (), with_db (<[session_id session := session]> (db w)) w)
  | io_fail e => (Throw e, w)
  end.

Definition loadSession (io : Io) (w : World) : Completion (option SessionState) :=
  match io with
  | io_ok => Normal (db w !! session_key)
  | io_fail e => Throw e
  end.

Definition clearSession (io : Io) (w : World) : Completion unit * World :=
  match io with
  | io_ok => (Normal (), with_db (delete session_key (db w)) w)
  | io_fail e => (Throw e, w)
  end.

End Storage.
Import Storage.

(** ** Actions of the [App] component *)

(** [addToast]: the identifier is [Date.now().toString()]; the toast is
    removed by a timer 4000 ms later ([expireToast]). *)
Definition addToast (w : World) (message : string) (type : ToastType) (st : App) : App :=
  let t := tool st in
  with_tool (mkTool (activeTool t) (prompt t) (isLoading t)
                    (toasts t ++ [mkToast (pretty (now w)) message type])) st.

Definition expireToast (id : string) (st : App) : App :=
  let t := tool st in
  with_tool (mkTool (activeTool t) (prompt t) (isLoading t)
                    (filter (λ m, toast_id m ≠ id) (toasts t))) st.

Definition handleError (w : World) (e : Thrown) (st : App) : App :=
  addToast w (match e with ErrorObj message => message | OtherValue => "Unknown error" end)
           toast_error st.

Definition setIsLoading (b : bool) (st : App) : App :=
  let t := tool st in
  with_tool (mkTool (activeTool t) (prompt t) b (toasts t)) st.

Definition setHistoryIndex (i : Z) (st : App) : App :=
  with_hist (mkHistory (history (hist st)) i) st.

(** [addToHistory]. *)
Definition addToHistory (w : World) (file : File) (st : App) : App :=
  let newHist := slice (history (hist st)) 0 (historyIndex (hist st) + 1) ++ [file] in
  let f := feat st in
  addToast w "Layer added" toast_success
    (with_feat
       (mkFeature None None                (* setEditHotspot(null); setDisplayHotspot(null) *)
                  None None                (* setCrop(undefined); setCompletedCrop(undefined) *)
                  (aspect f) (magicPrompt f)
                  false None               (* setIsMasking(false); setMaskDataUrl(null) *)
                  (brushSize f)
                  None None                (* setVideoResult(null); setAnalysisResult(null) *)
                  (groundingChunks f))
       (with_hist (mkHistory newHist (Z.of_nat (length newHist) - 1)) st)).

(** [handleGenAction]: [action] is the thunk, applied to the current image
    it dereferences; [outcome] is how its promise settles. *)
Definition handleGenAction (w : World) (action : File -> Request)
    (outcome : Completion string) (filename : string) (st : App) : App * World :=
  match currentImage st with
  | None => (st, w)
  | Some image =>
      let w' := send (action image) w in
      let st' :=
        match outcome with
        | Normal url =>
            match dataURLtoFile url filename with
            | Normal file => addToHistory w file st
            | Throw e => handleError w e st
            end
        | Throw e => handleError w e st
        end in
      (setIsLoading false st', w')
  end.

Definition handleRetouch (w : World) (outcome : Completion string) (st : App) : App * World :=
  match editHotspot (feat st) with
  | None => (addToast w "Click on the image to select an area." toast_error st, w)
  | Some hotspot =>
      if truthy (prompt (tool st)) then
        handleGenAction w (λ image, generateEditedImage image (prompt (tool st)) hotspot)
          outcome ("retouched-" +:+ pretty (now w) +:+ ".png") st
      else (addToast w "Please describe the edit." toast_error st, w)
  end.

(** [a || b] on numbers: [a] unless it is 0. *)
Definition or_else (a b : Z) : Z := if a =? 0 then b else a.

(** [handleMagicFill].  The mask image is decoded from the data URL; the
    data URL of a canvas without pixels is ["data:,"], which is not an image,
    so [onload] never runs for it. *)
Definition handleMagicFill (w : World) (p : string) (outcome : Completion string) (st : App)
    : App * World :=
  match maskDataUrl (feat st) with
  | None => (addToast w "Please draw a mask first." toast_error st, w)
  | Some maskImg =>
      if (width maskImg <=? 0) || (height maskImg <=? 0) then (st, w)
      else
        let natural (f : ImgElement -> Z) := from_option f 0 (imgRef (refs st)) in
        let file := mkMaskFile (or_else (natural naturalWidth) (width maskImg))
                               (or_else (natural naturalHeight) (height maskImg))
                               maskImg in
        handleGenAction w (λ image, generateMagicFillImage image file p)
          outcome ("fill-" +:+ pretty (now w) +:+ ".png") st
  end.

(** [handleAnalysis]. *)
Definition handleAnalysis (w : World) (outcome : Completion (string * option (list string)))
    (st : App) : App :=
  match currentImage st with
  | None => st
  | Some _ =>
      let st' :=
        match outcome with
        | Normal (text, chunks) =>
            let f := feat st in
            with_feat (mkFeature (editHotspot f) (displayHotspot f) (crop f) (completedCrop f)
                                 (aspect f) (magicPrompt f) (isMasking f) (maskDataUrl f)
                                 (brushSize f) (videoResult f) (Some text) chunks) st
        | Throw e => handleError w e st
        end in
      setIsLoading false st'
  end.

Definition handleUndo (st : App) : App :=
  if 0 <? historyIndex (hist st) then setHistoryIndex (historyIndex (hist st) - 1) st else st.

Definition handleRedo (st : App) : App :=
  if historyIndex (hist st) <? Z.of_nat (length (history (hist st))) - 1
  then setHistoryIndex (historyIndex (hist st) + 1) st else st.

(** [handleClear]: the state is reset after [await clearSession()]; when
    that promise rejects, so does the handler, and nobody catches it. *)
Definition handleClear (io : Io) (w : World) (st : App) : App * World :=
  match clearSession io w with
  | (Normal _, w') => (with_hist (mkHistory [] (-1)) st, w')
  | (Throw e, w') => (st, unhandled_rejection e w')
  end.

(** ** Effects *)

(** "Load Session", run once after the first render. *)
Definition loadEffect (io : Io) (w : World) (st : App) : App * World :=
  match loadSession io w with
  | Normal (Some session) =>
      if 0 <? Z.of_nat (length (session_history session)) then
        (addToast w "Session restored" toast_success
           (with_hist (mkHistory (session_history session) (currentIndex session)) st), w)
      else (st, w)
  | Normal None => (st, w)
  | Throw e => (st, log (console_warn e) w)
  end.

(** "Save Session", run after every render in which [history] or
    [historyIndex] changed. *)
Definition saveEffect (io : Io) (w : World) (st : App) : World :=
  if 0 <? Z.of_nat (length (history (hist st))) then
    match saveSession io (history (hist st)) (historyIndex (hist st)) w with
    | (Normal _, w') => w'
    | (Throw e, w') => log (console_error e) w'
    end
  else w.

(** ** The callbacks handed to the panels (JSX of [App]) *)

Inductive GenAction : Type :=
| Retouch                                   (* "Apply Edit": handleRetouch *)
| ApplyFilter (p : string)                  (* FilterPanel onApplyFilter *)
| AssistantFilter (f : string)              (* LiveAssistant onApplyFilter *)
| ApplyAdjustment (p : string)              (* AdjustmentPanel onApplyAdjustment *)
| RemoveBackground                          (* MagicPanel / LiveAssistant onRemoveBackground *)
| MagicFill (p : string)                    (* MagicPanel onMagicFill *)
| Generate (p : string) (r : AspectRatio) (s : ImageSize)   (* GeneratePanel onGenerate *)
| GenerateVideo (p : string) (r : VideoAspect) (i : bool).  (* VideoPanel onGenerateVideo *)

Definition run_action (a : GenAction) (w : World) (outcome : Completion string) (st : App)
    : App * World :=
  match a with
  | Retouch => handleRetouch w outcome st
  | ApplyFilter p =>
      handleGenAction w (λ image, generateFilteredImage image p) outcome "filt.png" st
  | AssistantFilter f =>
      handleGenAction w (λ image, generateFilteredImage image f) outcome "filter.png" st
  | ApplyAdjustment p =>
      handleGenAction w (λ image, generateAdjustedImage image p) outcome "adj.png" st
  | RemoveBackground =>
      handleGenAction w (λ image, generateRemovedBackgroundImage image) outcome "rm-bg.png" st
  | MagicFill p => handleMagicFill w p outcome st
  | Generate p r s =>
      handleGenAction w (λ _, generateNewImage p r s) outcome "gen.png" st
  | GenerateVideo p r i =>
      handleGenAction w (λ image, generateVeoVideo p r (if i then Some image else None))
        outcome "video.mp4" st
  end.

(** ** MagicPanel *)

Module MagicPanel.

(** [hasMask={!!maskDataUrl}]. *)
Definition hasMask (st : App) : bool := bool_decide (is_Some (maskDataUrl (feat st))).

(** [disabled] of the "Generate" submit button. *)
Definition generate_disabled (st : App) : bool :=
  isLoading (tool st) || negb (truthy (trim (magicPrompt (feat st)))) || negb (hasMask st).

(** Submitting the form runs [handleMagicFillSubmit], which calls
    [onMagicFill(magicPrompt)].  The form has one submit button; while it
    is disabled the browser does not submit the form, neither on a click
    nor on Enter in the text field. *)
Definition submit (w : World) (outcome : Completion string) (st : App) : App * World :=
  if generate_disabled st then (st, w)
  else handleMagicFill w (magicPrompt (feat st)) outcome st.

Definition setMaskDataUrl (m : option Raster) (st : App) : App :=
  let f := feat st in
  with_feat (mkFeature (editHotspot f) (displayHotspot f) (crop f) (completedCrop f)
                       (aspect f) (magicPrompt f) (isMasking f) m
                       (brushSize f) (videoResult f) (analysisResult f) (groundingChunks f)) st.

Definition setIsMasking (b : bool) (st : App) : App :=
  let f := feat st in
  with_feat (mkFeature (editHotspot f) (displayHotspot f) (crop f) (completedCrop f)
                       (aspect f) (magicPrompt f) b (maskDataUrl f)
                       (brushSize f) (videoResult f) (analysisResult f) (groundingChunks f)) st.

Definition onToggleMasking (st : App) : App := setIsMasking (negb (isMasking (feat st))) st.

(** [ctx.clearRect(0,0,9999,9999); setMaskDataUrl(null)]. *)
Definition onClearMask (st : App) : App :=
  let r := refs st in
  let canvas' :=
    match maskCanvasRef r with
    | Some c =>
        if context2d c
        then Some (with_bitmap (draw (ClearRect 0 0 9999 9999) (bitmap c)) c)
        else Some c
    | None => None
    end in
  setMaskDataUrl None
    (with_refs (mkRefs (imgRef r) canvas' (isDrawingRef r) (lastPositionRef r)) st).

End MagicPanel.

(** ** Mask painting ([handleMaskDraw]) *)

Inductive EventType : Type :=
| mousedown | mousemove | mouseup | mouseleave | touchstart | touchmove | touchend.

(** What the handler reads of the event.  A mouse event has no [touches]
    property; a touch event has the list of the touches still on the
    surface, which is empty when the last finger has been lifted. *)
Record PointerEvent : Type := mkEvent {
  event_type : EventType;
  touches : option (list Point);
  clientX : Q;
  clientY : Q;
}.

(** [e.touches ? e.touches[0].clientX : e.clientX], and the same for Y:
    reading a property of [undefined] throws a TypeError. *)
Definition client_point (e : PointerEvent) : Completion Point :=
  match touches e with
  | Some (t :: _) => Normal t
  | Some [] => Throw (ErrorObj "Cannot read properties of undefined (reading 'clientX')")
  | None => Normal (mkPoint (clientX e) (clientY e))
  end.

(** [handleMaskDraw]: the state after the handler, and what it threw if it
    did not return. *)
Definition handleMaskDraw (e : PointerEvent) (st : App) : App * option Thrown :=
  match maskCanvasRef (refs st) with
  | Some canvas =>
      if isMasking (feat st) then
        match client_point e with
        | Throw err => (st, Some err)
        | Normal client =>
            let x := (px client - rect_left canvas)%Q in
            let y := (py client - rect_top canvas)%Q in
            let r := refs st in
            if context2d canvas then
              match event_type e with
              | mousedown | touchstart =>
                  let radius := (brushSize (feat st) / 2)%Q in
                  if Qle_bool 0 radius then
                    (with_refs
                       (mkRefs (imgRef r)
                          (Some (with_bitmap (draw (FillArc (mkPoint x y) radius) (bitmap canvas))
                                             canvas))
                          true (Some (mkPoint x y))) st,
                     None)
                  else (* arc() rejects a negative radius *)
                    (with_refs (mkRefs (imgRef r) (maskCanvasRef r) true (Some (mkPoint x y))) st,
                     Some (ErrorObj "The radius provided is negative."))
              | mousemove | touchmove =>
                  if isDrawingRef r then
                    match lastPositionRef r with
                    | Some last =>
                        let canvas' := set_lineWidth (brushSize (feat st)) canvas in
                        (with_refs
                           (mkRefs (imgRef r)
                              (Some (with_bitmap
                                 (draw (StrokeLine last (mkPoint x y) (lineWidth canvas'))
                                       (bitmap canvas'))
                                 canvas'))
                              true (Some (mkPoint x y))) st,
                         None)
                    | None => (* moveTo(lastPositionRef.current!.x, ...) on null *)
                        (with_refs
                           (mkRefs (imgRef r)
                              (Some (set_lineWidth (brushSize (feat st)) canvas))
                              true None) st,
                         Some (ErrorObj "Cannot read properties of null (reading 'x')"))
                    end
                  else (st, None)
              | mouseup | mouseleave | touchend =>
                  (MagicPanel.setMaskDataUrl (Some (bitmap canvas))
                     (with_refs (mkRefs (imgRef r) (maskCanvasRef r) false (lastPositionRef r)) st),
                   None)
              end
            else (st, None)
        end
      else (st, None)
  | None => (st, None)
  end.

(** A sequence of events on the mask canvas; an event whose handler throws
    leaves the state the handler had reached. *)
Definition mask_events (es : list PointerEvent) (st : App) : App :=
  foldl (fun s e => fst (handleMaskDraw e s)) st es.

(** ** Video generation ([generateVeoVideo] of services/geminiService) *)

Module Veo.

(** The operation object as the function reads it: [done], and
    [response?.generatedVideos?.[0]?.video?.uri]. *)
Record Operation : Type := mkOperation {
  done : bool;
  uri : option string;
}.

(** State of the [while] loop: the operation last received, the number
    of [getVideosOperation] requests sent and the delays waited so far
    (milliseconds, oldest first). *)
Record Loop : Type := mkLoop {
  operation : Operation;
  polls : nat;
  sleeps : list Z;
}.

Inductive Status : Type :=
| Polling (l : Loop)               (* still inside the loop *)
| Exited (l : Loop)                (* the loop condition was false *)
| Failed (e : Thrown) (l : Loop).  (* an awaited request rejected *)

Definition start (op : Operation) : Loop := mkLoop op 0 [].

Section Remote.

(** [reply k]: how the [k]-th [getVideosOperation] request settles. *)
Variable reply : nat -> Completion Operation.

(** One test of the loop condition and, when it holds, one body. *)
Definition iteration (l : Loop) : Status :=
  if done (operation l) then Exited l
  else
    let slept := sleeps l ++ [5000] in
    match reply (polls l) with
    | Normal op => Polling (mkLoop op (S (polls l)) slept)
    | Throw e => Failed e (mkLoop (operation l) (S (polls l)) slept)
    end.

(** At most [n] iterations. *)
Fixpoint run (n : nat) (l : Loop) : Status :=
  match n with
  | O => Polling l
  | S n' =>
      match iteration l with
      | Polling l' => run n' l'
      | settled => settled
      end
  end.

(** The whole function after the operation was submitted, with the
    [API_KEY] of the environment; [None] when [n] iterations did not
    leave the loop. *)
Definition generateVeoVideo_from (api_key : string) (n : nat) (submitted : Operation)
  : option (Completion string) :=
  match run n (start submitted) with
  | Polling _ => None
  | Failed e _ => Some (Throw e)
  | Exited l =>
      match uri (operation l) with
      | Some u =>
          if truthy u then Some (Normal (u +:+ "&key=" +:+ api_key))
          else Some (Throw (ErrorObj "Video generation failed or no URI returned."))
      | None => Some (Throw (ErrorObj "Video generation failed or no URI returned."))
      end
  end.

(** What a loop in state [l] sees at its [k]-th test from now: the
    operation it holds, then the replies to come. *)
Definition observed_from (l : Loop) (k : nat) : Completion Operation :=
  match k with
  | O => Normal (operation l)
  | S j => reply (polls l + j)
  end.

(** From the start: the submitted operation, then the replies. *)
Definition observed (submitted : Operation) (k : nat) : Completion Operation :=
  observed_from (start submitted) k.

Definition pending (c : Completion Operation) : Prop :=
  exists op, c = Normal op /\ done op = false.

End Remote.

End Veo.

(** ** The Edit History Store as a transition system *)

Global Instance File_eq_dec : EqDecision File.
Proof. solve_decision. Defined.

Global Instance HistoryState_eq_dec : EqDecision HistoryState.
Proof. solve_decision. Defined.

(** The save effect depends on [[history, historyIndex]]: it runs after a
    render in which one of them changed.  (React compares the array by
    identity; the only update that installs an equal array is the reset of
    an empty history, for which the effect does nothing anyway.) *)
Definition after_render (io : Io) (before : App) (w : World) (after : App) : World :=
  if decide (hist before = hist after) then w else saveEffect io w after.

(** The operations of the store: [append] is [addToHistory], [undo] is
    [handleUndo], [redo] is [handleRedo] and [reset] is [handleClear], whose
    [clearSession] may succeed or fail. *)
Inductive StoreOp : Type :=
| Append (snapshot : File)
| Undo
| Redo
| Reset (io : Io).

Definition store_step (op : StoreOp) (sw : App * World) : App * World :=
  let '(st, w) := sw in
  match op with
  | Append snapshot => (addToHistory w snapshot st, w)
  | Undo => (handleUndo st, w)
  | Redo => (handleRedo st, w)
  | Reset io => handleClear io w st
  end.

(** The states after each operation of a sequence, oldest first. *)
Fixpoint store_trace (ops : list StoreOp) (sw : App * World) : list (App * World) :=
  match ops with
  | [] => []
  | op :: ops' => let sw' := store_step op sw in sw' :: store_trace ops' sw'
  end.

Definition cursor (st : App) : Z := historyIndex (hist st).
Definition length_of (st : App) : Z := Z.of_nat (length (history (hist st))).

Definition history_invariant (st : App) : Prop :=
  -1 <= cursor st <= length_of st - 1 /\ (length_of st = 0 <-> cursor st = -1).

(** ** Sample data *)

Definition fileA : File := mkFile ["A"%char] "a.png" "image/png".
Definition fileB : File := mkFile ["B"%char] "b.png" "image/png".
Definition fileC : File := mkFile ["C"%char] "c.png" "image/png".

(** An editor with the given history and cursor, everything else as at
    start-up. *)
Definition editing (h : list File) (i : Z) : App := with_hist (mkHistory h i) initial.

(** The Magic Fill tool with masking switched on over a 100 x 100 image
    displayed at the origin of the viewport. *)
Definition masking : App :=
  with_refs (mkRefs (Some (mkImg 100 100 100 100))
                    (Some (mkElement 0 0 true 1 (blank 100 100)))
                    false None)
    (MagicPanel.setIsMasking true (editing [fileA] 0)).

Definition mouse (t : EventType) (x y : Q) : PointerEvent := mkEvent t None x y.
(** The editor after a grounded analysis of [fileA] came back. *)
Definition analysed : App :=
  handleAnalysis (fresh_world 0)
    (Normal ("A tabby cat on a sofa.", Some ["https://example.org/cats"]))
    (editing [fileA] 0).

(** The message shown for a thrown value. *)
Definition message_of (e : Thrown) : string :=
  match e with ErrorObj message => message | OtherValue => "Unknown error" end.

(** [onMagicPromptChange={setMagicPrompt}]. *)
Definition setMagicPrompt (p : string) (st : App) : App :=
  let f := feat st in
  with_feat (mkFeature (editHotspot f) (displayHotspot f) (crop f) (completedCrop f)
                       (aspect f) p (isMasking f) (maskDataUrl f)
                       (brushSize f) (videoResult f) (analysisResult f) (groundingChunks f)) st.

(** Masking switched on, then one mouse-up over the canvas and nothing
    else. *)
Definition lone_mouseup : App := mask_events [mouse mouseup 10 10] masking.

(** A pixel is painted when its alpha is not zero. *)
Definition unpainted (coverage : PaintOp -> Z * Z -> Q) (r : Raster) : Prop :=
  forall pixel : Z * Z, (alpha_at coverage r pixel == 0)%Q.

(** Two clicks 20 pixels apart with the default brush (diameter 40), each
    released where it was pressed. *)
Definition two_stamps : App :=
  mask_events [mouse mousedown 30 30; mouse mouseup 30 30;
               mouse mousedown 50 30; mouse mouseup 50 30] masking.

(** The commands that paint, as opposed to [clearRect]. *)
Definition is_paint (op : PaintOp) : bool :=
  match op with
  | FillArc _ _ | StrokeLine _ _ _ => true
  | ClearRect _ _ _ _ => false
  end.

(** A rasteriser reports the covered fraction of a pixel. *)
Definition fraction (coverage : PaintOp -> Z * Z -> Q) : Prop :=
  forall op pixel, (0 <= coverage op pixel <= 1)%Q.

Definition touch (t : EventType) (ts : list Point) : PointerEvent := mkEvent t (Some ts) 0 0.

(** A one-finger stroke up to the moment before the finger is lifted. *)
Definition finger_down : App :=
  mask_events [touch touchstart [mkPoint 30 30]; touch touchmove [mkPoint 50 30]] masking.

(** A world in which the session [[fileA; fileB]] with cursor 1 was saved. *)
Definition saved_world : World :=
  snd (saveSession io_ok [fileA; fileB] 1 (fresh_world 5)).

(** Two remote services: one whose operation never completes, one that
    reports completion at the third poll. *)
Definition never_done (k : nat) : Completion Veo.Operation :=
  Normal (Veo.mkOperation false None).

Definition done_at_third (k : nat) : Completion Veo.Operation :=
  if (k <? 2)%nat then Normal (Veo.mkOperation false None)
  else Normal (Veo.mkOperation true (Some "https://videos.example/v1?alt=media")).

(** A service whose second poll request fails. *)
Definition fails_at_second (k : nat) : Completion Veo.Operation :=
  if (k <? 1)%nat then Normal (Veo.mkOperation false None)
  else Throw (ErrorObj "Failed to fetch").

(** ** The remaining handlers and setters of [App] *)

Definition setPrompt (p : string) (st : App) : App :=
  let t := tool st in
  with_tool (mkTool (activeTool t) p (isLoading t) (toasts t)) st.

Definition setActiveTool (m : ToolMode) (st : App) : App :=
  let t := tool st in
  with_tool (mkTool m (prompt t) (isLoading t) (toasts t)) st.

Definition setCrop (c : option CropRect) (st : App) : App :=
  let f := feat st in
  with_feat (mkFeature (editHotspot f) (displayHotspot f) c (completedCrop f)
                       (aspect f) (magicPrompt f) (isMasking f) (maskDataUrl f)
                       (brushSize f) (videoResult f) (analysisResult f) (groundingChunks f)) st.

Definition setCompletedCrop (c : option CropRect) (st : App) : App :=
  let f := feat st in
  with_feat (mkFeature (editHotspot f) (displayHotspot f) (crop f) c
                       (aspect f) (magicPrompt f) (isMasking f) (maskDataUrl f)
                       (brushSize f) (videoResult f) (analysisResult f) (groundingChunks f)) st.

Definition setAspect (a : option Q) (st : App) : App :=
  let f := feat st in
  with_feat (mkFeature (editHotspot f) (displayHotspot f) (crop f) (completedCrop f)
                       a (magicPrompt f) (isMasking f) (maskDataUrl f)
                       (brushSize f) (videoResult f) (analysisResult f) (groundingChunks f)) st.

Definition setBrushSize (n : Q) (st : App) : App :=
  let f := feat st in
  with_feat (mkFeature (editHotspot f) (displayHotspot f) (crop f) (completedCrop f)
                       (aspect f) (magicPrompt f) (isMasking f) (maskDataUrl f)
                       n (videoResult f) (analysisResult f) (groundingChunks f)) st.

Definition setAnalysisResult (r : option string) (st : App) : App :=
  let f := feat st in
  with_feat (mkFeature (editHotspot f) (displayHotspot f) (crop f) (completedCrop f)
                       (aspect f) (magicPrompt f) (isMasking f) (maskDataUrl f)
                       (brushSize f) (videoResult f) r (groundingChunks f)) st.

(** [handleImageClick].  The two points it stores are computed in floating
    point from the event and the layout of the image; they are arguments
    here: [display] is the click relative to the image, [edit] the same
    point scaled to the natural size and rounded. *)
Definition handleImageClick (display : Q * Q) (edit : Z * Z) (st : App) : App :=
  match activeTool (tool st) with
  | retouch =>
      if isMasking (feat st) then st
      else
        let f := feat st in
        with_feat (mkFeature (Some edit) (Some display) (crop f) (completedCrop f)
                             (aspect f) (magicPrompt f) (isMasking f) (maskDataUrl f)
                             (brushSize f) (videoResult f) (analysisResult f)
                             (groundingChunks f)) st
  | _ => st
  end.

(** [handleCropApply]: [rendered] is what [canvas.toDataURL()] returns for
    the cropped drawing.  Nothing catches what [dataURLtoFile] throws. *)
Definition handleCropApply (w : World) (rendered : string) (st : App) : App * option Thrown :=
  match completedCrop (feat st), imgRef (refs st) with
  | Some _, Some _ =>
      match dataURLtoFile rendered ("crop-" +:+ pretty (now w) +:+ ".png") with
      | Normal file => (addToHistory w file st, None)
      | Throw e => (st, Some e)
      end
  | _, _ => (st, None)
  end.

(** [onAnalyzeVideo={(f, p) => analyzeVideo(f, p).then(setAnalysisResult)}]:
    a rejection is handled by nobody. *)
Definition onAnalyzeVideo (w : World) (outcome : Completion string) (st : App) : App * World :=
  match outcome with
  | Normal text => (setAnalysisResult (Some text) st, w)
  | Throw e => (st, unhandled_rejection e w)
  end.

(** "Canvas Resizing for Mask": [sync] sets the size of the canvas to the
    displayed size of the image, which blanks the bitmap and resets the
    context. *)
Definition syncCanvas (st : App) : App :=
  let r := refs st in
  match imgRef r, maskCanvasRef r with
  | Some img, Some canvas =>
      with_refs
        (mkRefs (Some img)
           (Some (mkElement (rect_left canvas) (rect_top canvas) (context2d canvas) 1
                            (blank (clientWidth img) (clientHeight img))))
           (isDrawingRef r) (lastPositionRef r)) st
  | _, _ => st
  end.

(** React attaching or detaching the two element refs on a render. *)
Definition attachRefs (img : option ImgElement) (canvas : option Element) (st : App) : App :=
  let r := refs st in
  with_refs (mkRefs img canvas (isDrawingRef r) (lastPositionRef r)) st.

Definition with_now (t : Z) (w : World) : World :=
  mkWorld (db w) (console w) (unhandled w) (requests w) t (calls w) (idb w) (sessions w).

(** ** Handlers across an [await]

    A handler with an [await] runs in two parts: up to the [await] when it
    is called, and from there on when the promise settles, which may be
    after other events.  [handleGenAction], [handleRetouch],
    [handleMagicFill], [handleAnalysis] and [run_action] above are the two
    parts run one after the other on one state; here the parts are apart.
    What the second part of [handleGenAction] reads of the state are
    [history] and [historyIndex] as [addToHistory] closed over them, in the
    render in which the handler was created; what it writes, it writes to
    the state as it is by then.  The updates of one part are committed
    together. *)

Definition register (c : Call) (w : World) : World := with_calls (calls w ++ [c]) w.

(** [handleGenAction] of a render whose history state was [closure], up to
    [await action()]: the thunk has been called, with the [currentImage] of
    that render. *)
Definition beginGenAction (closure : HistoryState) (action : File -> Request)
    (filename : string) (st : App) (w : World) : App * World :=
  match index (history closure) (historyIndex closure) with
  | None => (st, w)
  | Some image =>
      (setIsLoading true st, register (GenCall closure filename) (send (action image) w))
  end.

(** [handleGenAction] from the [await] on: [addToHistory] appends to the
    history it closed over. *)
Definition endGenAction (closure : HistoryState) (filename : string)
    (outcome : Completion string) (w : World) (st : App) : App :=
  setIsLoading false
    match outcome with
    | Normal url =>
        match dataURLtoFile url filename with
        | Normal file => addToHistory w file (with_hist closure st)
        | Throw e => handleError w e st
        end
    | Throw e => handleError w e st
    end.

(** [handleRetouch] and [handleMagicFill] up to the [await] of the
    [handleGenAction] they call.  The mask of [handleMagicFill] is an image
    made from a data URL; its [onload] is taken to run before any other
    event. *)
Definition beginRetouch (st : App) (w : World) : App * World :=
  match editHotspot (feat st) with
  | None => (addToast w "Click on the image to select an area." toast_error st, w)
  | Some hotspot =>
      if truthy (prompt (tool st)) then
        beginGenAction (hist st)
          (λ image, generateEditedImage image (prompt (tool st)) hotspot)
          ("retouched-" +:+ pretty (now w) +:+ ".png") st w
      else (addToast w "Please describe the edit." toast_error st, w)
  end.

Definition beginMagicFill (p : string) (st : App) (w : World) : App * World :=
  match maskDataUrl (feat st) with
  | None => (addToast w "Please draw a mask first." toast_error st, w)
  | Some maskImg =>
      if (width maskImg <=? 0) || (height maskImg <=? 0) then (st, w)
      else
        let natural (f : ImgElement -> Z) := from_option f 0 (imgRef (refs st)) in
        let file := mkMaskFile (or_else (natural naturalWidth) (width maskImg))
                               (or_else (natural naturalHeight) (height maskImg))
                               maskImg in
        beginGenAction (hist st) (λ image, generateMagicFillImage image file p)
          ("fill-" +:+ pretty (now w) +:+ ".png") st w
  end.

(** A callback of the render on screen is called.  ([AssistantFilter] is
    the callback that render hands to the assistant, called by a session
    mounted in it; a session mounted in an earlier render is [toolCall]
    below.) *)
Definition begin_action (a : GenAction) (st : App) (w : World) : App * World :=
  match a with
  | Retouch => beginRetouch st w
  | ApplyFilter p =>
      beginGenAction (hist st) (λ image, generateFilteredImage image p) "filt.png" st w
  | AssistantFilter f =>
      beginGenAction (hist st) (λ image, generateFilteredImage image f) "filter.png" st w
  | ApplyAdjustment p =>
      beginGenAction (hist st) (λ image, generateAdjustedImage image p) "adj.png" st w
  | RemoveBackground =>
      beginGenAction (hist st) (λ image, generateRemovedBackgroundImage image) "rm-bg.png" st w
  | MagicFill p => beginMagicFill p st w
  | Generate p r s =>
      beginGenAction (hist st) (λ _, generateNewImage p r s) "gen.png" st w
  | GenerateVideo p r i =>
      beginGenAction (hist st)
        (λ image, generateVeoVideo p r (if i then Some image else None)) "video.mp4" st w
  end.

(** [handleAnalysis] up to [await analyzeImage(...)], and from there on. *)
Definition beginAnalysis (st : App) (w : World) : App * World :=
  match currentImage st with
  | None => (st, w)
  | Some _ => (setIsLoading true st, register AnalysisCall w)
  end.

Definition endAnalysis (outcome : Completion (string * option (list string))) (w : World)
    (st : App) : App :=
  setIsLoading false
    match outcome with
    | Normal (text, chunks) =>
        let f := feat st in
        with_feat (mkFeature (editHotspot f) (displayHotspot f) (crop f) (completedCrop f)
                             (aspect f) (magicPrompt f) (isMasking f) (maskDataUrl f)
                             (brushSize f) (videoResult f) (Some text) chunks) st
    | Throw e => handleError w e st
    end.

(** The voice assistant (components/LiveAssistant).  Its effect runs once,
    when the component is mounted, and hands the session the [onApplyFilter]
    and [onRemoveBackground] of that render; the session is not closed when
    the component goes.  A tool call of session [k] calls the one or the
    other. *)
Inductive VoiceCommand : Type :=
| applyFilter (filterName : string)
| removeBackground.

Definition mountAssistant (st : App) (w : World) : World :=
  with_sessions (sessions w ++ [hist st]) w.

(** [onApplyFilter={(f) => handleGenAction(() =>
    generateFilteredImage(currentImage!, f), 'filter.png')}] and
    [onRemoveBackground={() => handleGenAction(() =>
    generateRemovedBackgroundImage(currentImage!), 'rm-bg.png')}]. *)
Definition tool_request (c : VoiceCommand) (image : File) : Request :=
  match c with
  | applyFilter f => generateFilteredImage image f
  | removeBackground => generateRemovedBackgroundImage image
  end.

Definition tool_filename (c : VoiceCommand) : string :=
  match c with
  | applyFilter _ => "filter.png"
  | removeBackground => "rm-bg.png"
  end.

Definition toolCall (k : nat) (c : VoiceCommand) (st : App) (w : World) : App * World :=
  match sessions w !! k with
  | Some closure => beginGenAction closure (tool_request c) (tool_filename c) st w
  | None => (st, w)
  end.

(** How a call settles. *)
Inductive Settled : Type :=
| Generated (outcome : Completion string)
| Analysed (outcome : Completion (string * option (list string))).

(** The call at position [k] of those in flight settles. *)
Definition settle (k : nat) (s : Settled) (st : App) (w : World) : App * World :=
  match calls w !! k, s with
  | Some (GenCall closure filename), Generated outcome =>
      (endGenAction closure filename outcome w st, with_calls (delete k (calls w)) w)
  | Some AnalysisCall, Analysed outcome =>
      (endAnalysis outcome w st, with_calls (delete k (calls w)) w)
  | _, _ => (st, w)
  end.

(** ** Requests to IndexedDB in flight

    [saveSession] is called by the save effect and not awaited; the load
    effect and [handleClear] go on when their request has completed. *)

Definition enqueue (r : IdbRequest) (io : Io) (w : World) : World :=
  with_idb (idb w ++ [mkJob r io true]) w.

(** The save effect of the render of [st]. *)
Definition startSave (io : Io) (w : World) (st : App) : World :=
  if 0 <? Z.of_nat (length (history (hist st)))
  then enqueue (PutSession (history (hist st)) (historyIndex (hist st))) io w
  else w.

(** The oldest request completes, and what awaited it runs if the page
    that made the request is still there. *)
Definition idb_next (st : App) (w : World) : App * World :=
  match idb w with
  | [] => (st, w)
  | job :: rest =>
      let w0 := with_idb rest w in
      match job_request job with
      | PutSession h i =>
          match saveSession (job_io job) h i w0 with
          | (Normal _, w') => (st, w')
          | (Throw e, w') => (st, if job_attached job then log (console_error e) w' else w')
          end
      | GetSession =>
          if job_attached job then loadEffect (job_io job) w0 st else (st, w0)
      | DeleteSession =>
          if job_attached job then handleClear (job_io job) w0 st
          else (st, snd (clearSession (job_io job) w0))
      end
  end.

(** A reload of the page: the component starts from its initial values and
    its load effect calls [loadSession]; the calls and the assistant
    sessions of the page that goes are gone, and nothing awaits its
    requests to IndexedDB any more. *)
Definition detach (job : IdbJob) : IdbJob := mkJob (job_request job) (job_io job) false.

Definition reload (io : Io) (w : World) : App * World :=
  (initial,
   enqueue GetSession io (with_sessions [] (with_calls [] (with_idb (map detach (idb w)) w)))).

(** ** The editor as a transition system

    Everything that writes a state variable or a ref of the component that
    is part of [App], each run to its next [await]: the store operations (a
    file chosen on the start screen is an append; a reset calls
    [clearSession]), the generation callbacks of the panels, the tool calls
    of the voice assistant, the settling of a call, crop, the two analyses,
    the click on the image, the mask canvas, the panels' setters, the toast
    timer, the refs and the canvas effect, the mounting of the assistant,
    the clock, a reload of the page, and the completion of a request to
    IndexedDB.  Which controls are on screen or enabled is not part of the
    system: an event stands for a handler being called, so the system has
    every run of the component and possibly more. *)
Inductive AppEvent : Type :=
| Store (op : StoreOp)
| Gen (a : GenAction)
| ToolCall (k : nat) (c : VoiceCommand)
| Settle (k : nat) (s : Settled)
| CropApply (rendered : string)
| Analysis
| AnalyzeVideo (outcome : Completion string)
| ImageClick (display : Q * Q) (edit : Z * Z)
| MaskPointer (e : PointerEvent)
| ToggleMasking
| ClearMask
| SetMagicPrompt (p : string)
| SetBrushSize (n : Q)
| SetPrompt (p : string)
| SetActiveTool (m : ToolMode)
| SetCrop (c : option CropRect)
| SetCompletedCrop (c : option CropRect)
| SetAspect (a : option Q)
| RemoveToast (id : string)
| AttachRefs (img : option ImgElement) (canvas : option Element)
| ResizeCanvas
| MountAssistant
| Clock (t : Z)
| Restart (io : Io)
| IdbNext.

Definition app_handle (ev : AppEvent) (sw : App * World) : App * World :=
  let '(st, w) := sw in
  match ev with
  | Store (Reset io) => (st, enqueue DeleteSession io w)
  | Store op => store_step op (st, w)
  | Gen a => begin_action a st w
  | ToolCall k c => toolCall k c st w
  | Settle k s => settle k s st w
  | CropApply rendered => (fst (handleCropApply w rendered st), w)
  | Analysis => beginAnalysis st w
  | AnalyzeVideo outcome => onAnalyzeVideo w outcome st
  | ImageClick display edit => (handleImageClick display edit st, w)
  | MaskPointer e => (fst (handleMaskDraw e st), w)
  | ToggleMasking => (MagicPanel.onToggleMasking st, w)
  | ClearMask => (MagicPanel.onClearMask st, w)
  | SetMagicPrompt p => (setMagicPrompt p st, w)
  | SetBrushSize n => (setBrushSize n st, w)
  | SetPrompt p => (setPrompt p st, w)
  | SetActiveTool m => (setActiveTool m st, w)
  | SetCrop c => (setCrop c st, w)
  | SetCompletedCrop c => (setCompletedCrop c st, w)
  | SetAspect a => (setAspect a st, w)
  | RemoveToast id => (expireToast id st, w)
  | AttachRefs img canvas => (attachRefs img canvas st, w)
  | ResizeCanvas => (syncCanvas st, w)
  | MountAssistant => (st, mountAssistant st w)
  | Clock t => (st, with_now t w)
  | Restart io => reload io w
  | IdbNext => idb_next st w
  end.

(** Whether the handler that runs for the event calls [setHistory].  The
    save effect depends on [[history, historyIndex]]; React compares the
    array by identity, and every call of [setHistory] installs a new
    array. *)
Definition sets_history (ev : AppEvent) (st : App) (w : World) : bool :=
  match ev with
  | Store (Append _) => true
  | Settle k (Generated (Normal url)) =>
      match calls w !! k with
      | Some (GenCall _ filename) =>
          match dataURLtoFile url filename with Normal _ => true | Throw _ => false end
      | _ => false
      end
  | CropApply rendered =>
      match completedCrop (feat st), imgRef (refs st) with
      | Some _, Some _ =>
          match dataURLtoFile rendered ("crop-" +:+ pretty (now w) +:+ ".png") with
          | Normal _ => true
          | Throw _ => false
          end
      | _, _ => false
      end
  | IdbNext =>
      match idb w with
      | job :: _ =>
          job_attached job &&
          match job_request job, job_io job with
          | GetSession, io_ok =>
              match db w !! session_key with
              | Some session => 0 <? Z.of_nat (length (session_history session))
              | None => false
              end
          | DeleteSession, io_ok => true
          | _, _ => false
          end
      | [] => false
      end
  | _ => false
  end.

(** One event, the render that follows it, and the save effect of that
    render when [history] or [historyIndex] has changed; [save] is how the
    request made by that effect will end.  After a reload the component is
    new: its first render has the initial values. *)
Definition app_step (ev_save : AppEvent * Io) (sw : App * World) : App * World :=
  let '(ev, save) := ev_save in
  let before := match ev with Restart _ => initial | _ => fst sw end in
  let '(st', w') := app_handle ev sw in
  if sets_history ev (fst sw) (snd sw)
     || negb (bool_decide (historyIndex (hist before) = historyIndex (hist st')))
  then (st', startSave save w' st')
  else (st', w').

Definition app_run (evs : list (AppEvent * Io)) (sw : App * World) : App * World :=
  foldl (fun s e => app_step e s) sw evs.

(** The history state a stored session restores. *)
Definition record_of (w : World) : option HistoryState :=
  (fun s => mkHistory (session_history s) (currentIndex s)) <$> db w !! session_key.

(** The session the store ends with when the requests in flight have
    completed and the saves among them have succeeded.  The requests of
    [handleClear] made by the page on screen are not counted: when one of
    them succeeds the history on screen is emptied with it, and when it
    fails nothing changes. *)
Definition after_job (stored : option HistoryState) (job : IdbJob) : option HistoryState :=
  match job_request job with
  | PutSession h i => Some (mkHistory h i)
  | GetSession => stored
  | DeleteSession => if job_attached job then stored else None
  end.

Definition outstanding (w : World) : option HistoryState :=
  foldl after_job (record_of w) (idb w).







Definition is_reset (op : StoreOp) : bool :=
  match op with Reset _ => true | _ => false end.

(** The exceptions thrown by the handlers of a sequence of pointer events,
    oldest first. *)
Fixpoint mask_throws (es : list PointerEvent) (st : App) : list Thrown :=
  match es with
  | [] => []
  | e :: es' =>
      let '(st', thrown) := handleMaskDraw e st in
      match thrown with
      | Some err => err :: mask_throws es' st'
      | None => mask_throws es' st'
      end
  end.

(** While a stroke is in progress its last point is known. *)
Definition stroke_has_anchor (st : App) : Prop :=
  isDrawingRef (refs st) = true -> is_Some (lastPositionRef (refs st)).

(** The alpha of a pixel of the mask canvas, 0 without a canvas. *)
Definition canvas_alpha (coverage : PaintOp -> Z * Z -> Q) (st : App) (pixel : Z * Z) : Q :=
  match maskCanvasRef (refs st) with
  | Some canvas => alpha_at coverage (bitmap canvas) pixel
  | None => 0%Q
  end.

Definition is_move (e : PointerEvent) : bool :=
  match event_type e with mousemove | touchmove => true | _ => false end.

(** The segments of a polyline through [p] and then [qs]. *)
Fixpoint polyline (p : Point) (qs : list Point) (w : Q) : list PaintOp :=
  match qs with
  | [] => []
  | q :: qs' => StrokeLine p q w :: polyline q qs' w
  end.

(** A string without a comma. *)
Definition comma_free (s : string) : Prop := Forall (fun c => c <> ","%char) (list_ascii_of_string s).

(** A MIME type that survives the data URL: not empty, no comma, no
    semicolon, no line break. *)
Definition plain_mime (s : string) : Prop :=
  s <> "" /\
  Forall (fun c => c <> ","%char /\ c <> ";"%char /\ is_line_terminator c = false)
         (list_ascii_of_string s).

(** A type the [File] constructor keeps as it is: printable ASCII without
    upper-case letters. *)
Definition lower_case_type (s : string) : Prop :=
  Forall (fun c => is_printable c = true /\ to_lower c = c) (list_ascii_of_string s).

(** ** Responses of the remote service (services/geminiService) *)

Module Gemini.

(** A part of the first candidate: its text or its inline data (MIME type
    and base64 data), as the functions read them. *)
Record Part : Type := mkPart {
  part_text : option string;
  inlineData : option (string * string);
}.

(** [response.promptFeedback?.blockReason],
    [response.candidates?.[0]?.content?.parts] and [response.text]. *)
Record Response : Type := mkResponse {
  blockReason : option string;
  parts : option (list Part);
  text : option string;
}.

(** The [for] loop of [handleApiResponse]: the first part with inline
    data. *)
Fixpoint first_inline (ps : list Part) : option (string * string) :=
  match ps with
  | [] => None
  | p :: ps' =>
      match inlineData p with
      | Some d => Some d
      | None => first_inline ps'
      end
  end.

(** [a || b] on strings that may be undefined. *)
Definition or_string (a : option string) (b : string) : string :=
  match a with
  | Some s => if truthy s then s else b
  | None => b
  end.

Definition no_image (context : string) (r : Response) : Thrown :=
  ErrorObj ("No image generated for " +:+ context +:+ ". Model output: "
            +:+ or_string (text r) "Unknown error").

Definition handleApiResponse (response : Response) (context : string) : Completion string :=
  if truthy (or_string (blockReason response) "") then
    Throw (ErrorObj ("Request blocked: " +:+ or_string (blockReason response) ""))
  else
    match parts response with
    | Some ps =>
        match first_inline ps with
        | Some (mimeType, data) => Normal ("data:" +:+ mimeType +:+ ";base64," +:+ data)
        | None => Throw (no_image context response)
        end
    | None => Throw (no_image context response)
    end.

End Gemini.

(** ** Batch mode (components/BatchProcessor) *)

Module Batch.

Inductive Status : Type := st_pending | st_processing | st_done | st_error.

Record BatchItem : Type := mkItem {
  id : string;
  file : File;
  status : Status;
  resultUrl : option string;
  error : option string;
}.

Inductive Operation : Type := op_filter | op_adjust | op_removeBg.

Record State : Type := mkState {
  items : list BatchItem;
  operation : Operation;
  prompt : string;
  isProcessing : bool;
}.

Definition initial : State := mkState [] op_filter "" false.

(** [handleFileUpload]: the chosen files, each with the identifier drawn
    for it, are queued after the items already there. *)
Definition handleFileUpload (files : option (list (string * File))) (s : State) : State :=
  match files with
  | Some fs =>
      mkState (items s ++ map (fun f => mkItem (fst f) (snd f) st_pending None None) fs)
              (operation s) (prompt s) (isProcessing s)
  | None => s
  end.

(** The call [processItem] makes for an item. *)
Definition processItem (s : State) (item : BatchItem) : Request :=
  match operation s with
  | op_removeBg => generateRemovedBackgroundImage (file item)
  | op_filter => generateFilteredImage (file item) (prompt s)
  | op_adjust => generateAdjustedImage (file item) (prompt s)
  end.

(** [prev.map(it => it.id === id ? f(it) : it)]. *)
Definition update (i : string) (f : BatchItem -> BatchItem) (l : list BatchItem) : list BatchItem :=
  map (fun it => if String.eqb (id it) i then f it else it) l.

Definition mark (s : Status) (it : BatchItem) : BatchItem :=
  mkItem (id it) (file it) s (resultUrl it) (error it).

Definition set_done (url : string) (it : BatchItem) : BatchItem :=
  mkItem (id it) (file it) st_done (Some url) (error it).

(** [error.message] of what was caught: undefined unless it is an Error. *)
Definition set_error (e : Thrown) (it : BatchItem) : BatchItem :=
  mkItem (id it) (file it) st_error (resultUrl it)
         (match e with ErrorObj m => Some m | OtherValue => None end).

Definition is_done (it : BatchItem) : bool :=
  match status it with st_done => true | _ => false end.

(** The body of the [for] loop for the item at position [i] of the list
    the handler closed over; [live] is the state the updates apply to and
    [outcome i] how the call for that item settles. *)
Definition iteration (s : State) (outcome : nat -> Completion string) (i : nat)
    (item : BatchItem) (lr : list BatchItem * list Request) : list BatchItem * list Request :=
  let '(live, sent) := lr in
  if is_done item then (live, sent)
  else
    let live1 := update (id item) (mark st_processing) live in
    let sent1 := sent ++ [processItem s item] in
    match outcome i with
    | Normal url => (update (id item) (set_done url) live1, sent1)
    | Throw e => (update (id item) (set_error e) live1, sent1)
    end.

Fixpoint loop (s : State) (outcome : nat -> Completion string) (i : nat)
    (closed_over : list BatchItem) (lr : list BatchItem * list Request)
    : list BatchItem * list Request :=
  match closed_over with
  | [] => lr
  | item :: rest => loop s outcome (S i) rest (iteration s outcome i item lr)
  end.

(** The guard of [startBatch]. *)
Definition cannot_start (s : State) : bool :=
  (match operation s with op_removeBg => false | _ => negb (truthy (prompt s)) end)
  || (match items s with [] => true | _ :: _ => false end).

(** [startBatch]: the state afterwards and the calls made, oldest first. *)
Definition startBatch (outcome : nat -> Completion string) (s : State) : State * list Request :=
  if cannot_start s then (s, [])
  else
    let '(live, sent) := loop s outcome 0 (items s) (items s, []) in
    (mkState live (operation s) (prompt s) false, sent).

Definition clearAll (s : State) : State :=
  if isProcessing s then s else mkState [] (operation s) (prompt s) (isProcessing s).

(** What the batch makes of the item at position [i]. *)
Definition settle (outcome : nat -> Completion string) (i : nat) (it : BatchItem) : BatchItem :=
  if is_done it then it
  else match outcome i with
       | Normal url => set_done url it
       | Throw e => set_error e it
       end.

End Batch.

(** A mouse event at a point of the viewport, and the same point relative
    to the canvas. *)
Definition pointer_at (t : EventType) (p : Point) : PointerEvent :=
  mkEvent t None (px p) (py p).

Definition local_point (canvas : Element) (p : Point) : Point :=
  mkPoint (px p - rect_left canvas) (py p - rect_top canvas).

(** The state while a stroke is being drawn on [canvas], last at [last]. *)
Definition stroking (st : App) (canvas : Element) (last : Point) : Prop :=
  maskCanvasRef (refs st) = Some canvas /\ context2d canvas = true
  /\ isMasking (feat st) = true /\ isDrawingRef (refs st) = true
  /\ lastPositionRef (refs st) = Some last /\ (0 < brushSize (feat st))%Q.

(** The events after which the calls in flight are still in flight, at
    the positions they had, and the sessions of the assistant still live. *)
Definition keeps_calls (ev : AppEvent) : bool :=
  match ev with
  | Settle _ _ | Restart _ => false
  | _ => true
  end.


(** What [generateVeoVideo] does with the operation it leaves the loop
    with. *)
Definition video_address (api_key : string) (op : Veo.Operation) : Completion string :=
  match Veo.uri op with
  | Some u =>
      if truthy u then Normal (u +:+ "&key=" +:+ api_key)
      else Throw (ErrorObj "Video generation failed or no URI returned.")
  | None => Throw (ErrorObj "Video generation failed or no URI returned.")
  end.

(** * Properties *)

(** ** The JavaScript helpers on small inputs *)

Example slice_examples :
  slice [1; 2; 3] 0 2 = [1; 2] /\ slice [1; 2; 3] 0 0 = [] /\ slice [1; 2; 3] 0 7 = [1; 2; 3]
  /\ slice [1; 2; 3] 0 (-1) = [1; 2] /\ slice [1; 2; 3] (-2) 3 = [2; 3].
Proof. repeat split. Qed.

Example index_examples :
  index [fileA; fileB] 1 = Some fileB /\ index [fileA; fileB] (-1) = None
  /\ index [fileA; fileB] 2 = None.
Proof. repeat split. Qed.

Example trim_examples :
  trim "  a b  " = "a b" /\ trim "   " = "" /\ truthy (trim "") = false.
Proof. repeat split. Qed.

Example dataURLtoFile_png :
  dataURLtoFile "data:image/png;base64,SGk=" "a.png"
  = Normal (mkFile ["H"; "i"]%char "a.png" "image/png").
Proof. reflexivity. Qed.

Example dataURLtoFile_plain_url :
  dataURLtoFile "https://host/video.mp4?x=1&key=K" "video.mp4"
  = Throw (ErrorObj "Invalid data URL").
Proof. reflexivity. Qed.

Example blob_type_examples :
  blob_type "image/png" = "image/png" /\ blob_type "Image/PNG" = "image/png"
  /\ blob_type (String (ascii_of_N 233) "tat") = ""
  /\ dataURLtoFile "data:IMAGE/PNG;base64,SGk=" "a.png"
     = Normal (mkFile ["H"; "i"]%char "a.png" "image/png").
Proof. repeat split. Qed.

(** Coats of the paint over one pixel, in steps of 1/255. *)
Example coats_of_paint :
  let coat := source_over paint_alpha in
  coat 0%Q = 204 # 255 /\ coat (coat 0%Q) = 245 # 255
  /\ coat (coat (coat 0%Q)) = 253 # 255 /\ coat (coat (coat (coat 0%Q))) = 255 # 255.
Proof. repeat split. Qed.

Example alpha_single_stamp :
  (alpha_at hard_coverage (draw (FillArc (mkPoint 30 30) 20) (blank 100 100)) (40, 30)%Z == 8 # 10)%Q.
Proof. reflexivity. Qed.

(** ** The scenarios of the specification, run on the model *)

Example scenario_branch_cut :
  let w := fresh_world 0 in
  let s1 := addToHistory w fileA initial in
  let s2 := addToHistory w fileB s1 in
  let s3 := handleUndo s2 in
  let s4 := addToHistory w fileC s3 in
  hist s1 = mkHistory [fileA] 0 /\
  hist s2 = mkHistory [fileA; fileB] 1 /\
  hist s3 = mkHistory [fileA; fileB] 0 /\
  hist s4 = mkHistory [fileA; fileC] 1 /\
  handleRedo s4 = s4.
Proof. repeat split. Qed.

Example scenario_reload :
  let record := mkSession session_key [fileA; fileB; fileC] 1 7 in
  let w := with_db {[ session_key := record ]} (fresh_world 9) in
  let st := fst (loadEffect io_ok w initial) in
  currentImage st = Some fileB /\
  cursor (handleUndo st) = 0 /\
  cursor (handleRedo st) = 2.
Proof. repeat split. Qed.

(** ** Edit History Store *)

Section History.

Implicit Types (st : App) (w : World) (f : File).

Lemma slice_prefix {A} (l : list A) (k : Z) :
  0 <= k <= Z.of_nat (length l) -> slice l 0 k = take (Z.to_nat k) l.
Proof.
  intros Hk. unfold slice, relative_index.
  replace (0 <? 0) with false by reflexivity.
  destruct (k <? 0) eqn:Hneg; [lia|].
  rewrite Z.min_l by lia. rewrite Z.min_l by lia.
  rewrite Z.sub_0_r. reflexivity.
Qed.

Lemma addToHistory_hist w f st :
  hist (addToHistory w f st)
  = let newHist := slice (history (hist st)) 0 (cursor st + 1) ++ [f] in
    mkHistory newHist (Z.of_nat (length newHist) - 1).
Proof. reflexivity. Qed.

Lemma handleUndo_history st : history (hist (handleUndo st)) = history (hist st).
Proof. unfold handleUndo. destruct (0 <? _); reflexivity. Qed.

Lemma handleRedo_history st : history (hist (handleRedo st)) = history (hist st).
Proof. unfold handleRedo. destruct (_ <? _); reflexivity. Qed.

Lemma handleUndo_cursor st :
  cursor (handleUndo st) = if 0 <? cursor st then cursor st - 1 else cursor st.
Proof. unfold handleUndo, cursor. destruct (0 <? _); reflexivity. Qed.

Lemma handleRedo_cursor st :
  cursor (handleRedo st) = if cursor st <? length_of st - 1 then cursor st + 1 else cursor st.
Proof. unfold handleRedo, cursor, length_of. destruct (_ <? _); reflexivity. Qed.

Lemma handleUndo_hist st :
  hist (handleUndo st)
  = mkHistory (history (hist st)) (if 0 <? cursor st then cursor st - 1 else cursor st).
Proof.
  unfold handleUndo, cursor. destruct (0 <? _); [reflexivity|].
  destruct st as [[h i] t fe r]. reflexivity.
Qed.

(** [k] undos from a cursor of at least [k] move it back by [k]. *)
Lemma undo_iter st (k : nat) :
  Z.of_nat k <= cursor st ->
  hist (Nat.iter k handleUndo st) = mkHistory (history (hist st)) (cursor st - Z.of_nat k).
Proof.
  induction k as [|k IH]; intros Hk.
  - destruct st as [[h i] t fe r]. cbn. f_equal. lia.
  - rewrite Nat.iter_succ. specialize (IH ltac:(lia)).
    rewrite handleUndo_hist. unfold cursor at 1 2. rewrite IH. cbn [historyIndex history].
    destruct (0 <? cursor st - Z.of_nat k) eqn:Hpos; [|lia].
    f_equal. lia.
Qed.

End History.

(** C1.  For a history of length n with cursor c, 0 <= c <= n-1, append
    keeps exactly the snapshots at indices 0..c, pushes the new snapshot
    after them and puts the cursor on it, the new last index, so that redo
    does nothing.  In particular, after k undos from the tip, append drops
    exactly the k snapshots that were ahead of the cursor. *)
Theorem C1_append_cuts_redo_branch (st : App) (w : World) (f : File) :
  0 <= cursor st <= length_of st - 1 ->
  let st' := addToHistory w f st in
  history (hist st') = take (Z.to_nat (cursor st + 1)) (history (hist st)) ++ [f]
  /\ length_of st' = cursor st + 2
  /\ cursor st' = cursor st + 1
  /\ cursor st' = length_of st' - 1
  /\ handleRedo st' = st'
  /\ (forall k : nat,
        cursor st = length_of st - 1 -> Z.of_nat k <= cursor st ->
        let undone := Nat.iter k handleUndo st in
        cursor undone = cursor st - Z.of_nat k
        /\ history (hist (addToHistory w f undone))
           = take (length (history (hist st)) - k) (history (hist st)) ++ [f]
        /\ length (drop (length (history (hist st)) - k) (history (hist st))) = k
        /\ handleRedo (addToHistory w f undone) = addToHistory w f undone).
Proof.
  intros Hc st'.
  assert (Hcut : forall s, 0 <= cursor s <= length_of s - 1 ->
            history (hist (addToHistory w f s))
            = take (Z.to_nat (cursor s + 1)) (history (hist s)) ++ [f]).
  { intros s Hs. rewrite addToHistory_hist. cbn.
    rewrite slice_prefix; [reflexivity|]. unfold length_of in Hs. lia. }
  assert (Hlen : forall s, 0 <= cursor s <= length_of s - 1 ->
            length_of (addToHistory w f s) = cursor s + 2).
  { intros s Hs. unfold length_of at 1. rewrite Hcut by exact Hs.
    rewrite length_app, length_take. cbn. unfold length_of in Hs. lia. }
  assert (Htip : forall s, cursor (addToHistory w f s) = length_of (addToHistory w f s) - 1).
  { intros s. unfold cursor, length_of. rewrite addToHistory_hist. reflexivity. }
  assert (Hredo : forall s, handleRedo (addToHistory w f s) = addToHistory w f s).
  { intros s. unfold handleRedo. fold (cursor (addToHistory w f s)).
    fold (length_of (addToHistory w f s)). rewrite Htip.
    rewrite Z.ltb_irrefl. reflexivity. }
  split; [apply Hcut, Hc|].
  split; [apply Hlen, Hc|].
  split; [subst st'; rewrite Htip, Hlen by exact Hc; lia|].
  split; [apply Htip|].
  split; [apply Hredo|].
  intros k Htop Hk undone.
  pose proof (undo_iter st k Hk) as Hu.
  split; [unfold cursor at 1; subst undone; rewrite Hu; reflexivity|].
  split; [|split; [|apply Hredo]].
  - rewrite Hcut.
    + unfold cursor at 1. subst undone. rewrite Hu. cbn [history historyIndex].
      f_equal. f_equal. unfold cursor, length_of in *. lia.
    + unfold cursor, length_of. subst undone. rewrite Hu. cbn [history historyIndex].
      unfold cursor, length_of in *. lia.
  - rewrite length_drop. unfold cursor, length_of in *. lia.
Qed.

Lemma C1_append_cuts_redo_branch_witness :
  let st := editing [fileA; fileB; fileC] 2 in
  let w := fresh_world 0 in
  0 <= cursor st <= length_of st - 1
  /\ history (hist (addToHistory w fileA (Nat.iter 2 handleUndo st))) = [fileA; fileA]
  /\ cursor (addToHistory w fileA st) = 3.
Proof.
  intros st w.
  assert (Hc : 0 <= cursor st <= length_of st - 1) by (vm_compute; split; discriminate).
  destruct (C1_append_cuts_redo_branch st w fileA Hc) as (_ & _ & Hcur & _ & _ & Hundo).
  destruct (Hundo 2%nat eq_refl ltac:(vm_compute; discriminate)) as (_ & Hh & _).
  split; [exact Hc|]. split; [exact Hh | exact Hcur].
Defined.

Section Invariant.

Implicit Types (st : App) (w : World).

Lemma initial_invariant : history_invariant initial.
Proof. unfold history_invariant, cursor, length_of. cbn. lia. Qed.

Lemma addToHistory_invariant w f st : history_invariant (addToHistory w f st).
Proof.
  unfold history_invariant, cursor, length_of. rewrite addToHistory_hist.
  cbn [history historyIndex]. rewrite length_app. cbn [length]. lia.
Qed.

Lemma handleUndo_invariant st : history_invariant st -> history_invariant (handleUndo st).
Proof.
  unfold history_invariant, cursor, length_of. rewrite handleUndo_hist.
  cbn [history historyIndex]. unfold cursor. destruct (0 <? _) eqn:E; lia.
Qed.

Lemma handleRedo_invariant st : history_invariant st -> history_invariant (handleRedo st).
Proof.
  intros H. unfold history_invariant.
  unfold length_of. rewrite handleRedo_history. fold (length_of st).
  rewrite handleRedo_cursor. unfold history_invariant in H.
  destruct (_ <? _) eqn:E; lia.
Qed.

Lemma handleClear_invariant io w st :
  history_invariant st -> history_invariant (fst (handleClear io w st)).
Proof.
  intros H. destruct io as [|e]; cbn; [|exact H].
  unfold history_invariant, cursor, length_of. cbn. lia.
Qed.

Lemma store_step_invariant op sw :
  history_invariant (fst sw) -> history_invariant (fst (store_step op sw)).
Proof.
  destruct sw as [st w]. cbn [fst]. intros H. destruct op; cbn [store_step fst].
  - apply addToHistory_invariant.
  - apply handleUndo_invariant, H.
  - apply handleRedo_invariant, H.
  - apply handleClear_invariant, H.
Qed.

Lemma store_trace_invariant ops : forall sw,
  history_invariant (fst sw) ->
  Forall (fun sw' => history_invariant (fst sw')) (store_trace ops sw).
Proof.
  induction ops as [|op ops IH]; intros sw H; cbn [store_trace].
  - constructor.
  - constructor; [|apply IH]; apply store_step_invariant, H.
Qed.

End Invariant.

(** C2.  Starting from the empty state, after each operation of any sequence
    of append, undo, redo and reset the cursor lies in [-1, length-1] and the
    length is 0 exactly when the cursor is -1.  Undo and redo leave the
    sequence as it is; undo moves the cursor back by one when it is above 0
    and changes nothing otherwise; redo moves it forward by one when it is
    below length-1 and changes nothing otherwise. *)
Theorem C2_history_invariant :
  (forall (ops : list StoreOp) (w : World),
      Forall (fun sw => history_invariant (fst sw)) (store_trace ops (initial, w)))
  /\ (forall st : App,
        history (hist (handleUndo st)) = history (hist st)
        /\ history (hist (handleRedo st)) = history (hist st))
  /\ (forall st : App,
        (0 < cursor st -> cursor (handleUndo st) = cursor st - 1)
        /\ (cursor st <= 0 -> handleUndo st = st))
  /\ (forall st : App,
        (cursor st < length_of st - 1 -> cursor (handleRedo st) = cursor st + 1)
        /\ (length_of st - 1 <= cursor st -> handleRedo st = st)).
Proof.
  split; [|split; [|split]].
  - intros ops w. apply store_trace_invariant, initial_invariant.
  - intros st. split; [apply handleUndo_history | apply handleRedo_history].
  - intros st. split; intros H.
    + rewrite handleUndo_cursor. destruct (0 <? cursor st) eqn:E; lia.
    + unfold handleUndo. fold (cursor st). destruct (0 <? cursor st) eqn:E; [lia | reflexivity].
  - intros st. split; intros H.
    + rewrite handleRedo_cursor. destruct (_ <? _) eqn:E; lia.
    + unfold handleRedo. fold (cursor st) (length_of st).
      destruct (_ <? _) eqn:E; [lia | reflexivity].
Qed.

Lemma C2_history_invariant_witness :
  let st := editing [fileA; fileB] 1 in
  history_invariant
    (fst (store_step (Reset io_ok) (store_step Undo (store_step (Append fileA) (initial, fresh_world 0)))))
  /\ cursor (handleUndo st) = 0
  /\ handleUndo (handleUndo st) = handleUndo st
  /\ cursor (handleRedo (handleUndo st)) = 1
  /\ handleRedo st = st.
Proof.
  intros st.
  destruct C2_history_invariant as (Hinv & _ & Hundo & Hredo).
  split.
  - pose proof (Hinv [Append fileA; Undo; Reset io_ok] (fresh_world 0)) as H.
    cbn [store_trace] in H.
    apply Forall_cons_1 in H as [_ H]. apply Forall_cons_1 in H as [_ H].
    apply Forall_cons_1 in H as [H _]. exact H.
  - split; [apply (Hundo st); vm_compute; reflexivity|].
    split; [apply (Hundo (handleUndo st)); vm_compute; discriminate|].
    split; [apply (Hredo (handleUndo st)); vm_compute; reflexivity|].
    apply (Hredo st); vm_compute; discriminate.
Defined.

(** ** Transient tool state *)

Section Transient.

Implicit Types (st : App) (w : World) (f : File).

(** What [addToHistory] resets. *)
Lemma addToHistory_clears w f st :
  let fe := feat (addToHistory w f st) in
  editHotspot fe = None /\ displayHotspot fe = None
  /\ crop fe = None /\ completedCrop fe = None
  /\ isMasking fe = false /\ maskDataUrl fe = None
  /\ videoResult fe = None /\ analysisResult fe = None.
Proof. cbn. repeat split. Qed.

(** What it leaves as it was. *)
Lemma addToHistory_keeps w f st :
  let st' := addToHistory w f st in
  groundingChunks (feat st') = groundingChunks (feat st)
  /\ aspect (feat st') = aspect (feat st)
  /\ magicPrompt (feat st') = magicPrompt (feat st)
  /\ brushSize (feat st') = brushSize (feat st)
  /\ refs st' = refs st.
Proof. cbn. repeat split. Qed.

End Transient.

(** C3.  Appending a snapshot after a grounded analysis clears the analysis
    text but not the grounding chunks cached with it: they still describe
    the previous current image. *)
Theorem C3_append_keeps_groundingChunks :
  let st' := addToHistory (fresh_world 1) fileB analysed in
  analysisResult (feat analysed) = Some "A tabby cat on a sofa."
  /\ groundingChunks (feat analysed) = Some ["https://example.org/cats"]
  /\ currentImage st' = Some fileB
  /\ analysisResult (feat st') = None
  /\ groundingChunks (feat st') = Some ["https://example.org/cats"].
Proof. repeat split. Qed.

(** ** Remote generation *)

Section Generation.

Implicit Types (st : App) (w : World) (e : Thrown).

Lemma handleError_toasts w e st :
  handleError w e st
  = with_tool (mkTool (activeTool (tool st)) (prompt (tool st)) (isLoading (tool st))
                 (toasts (tool st) ++ [mkToast (pretty (now w)) (message_of e) toast_error])) st.
Proof. destruct e; reflexivity. Qed.

(** A rejected action: nothing but the toast list and the busy flag
    changes, and only when the action was started. *)
Lemma handleGenAction_rejected w action e filename st :
  handleGenAction w action (Throw e) filename st
  = match currentImage st with
    | None => (st, w)
    | Some image =>
        (with_tool (mkTool (activeTool (tool st)) (prompt (tool st)) false
                      (toasts (tool st)
                       ++ [mkToast (pretty (now w)) (message_of e) toast_error])) st,
         send (action image) w)
    end.
Proof.
  unfold handleGenAction. destruct (currentImage st); [|reflexivity].
  rewrite handleError_toasts. reflexivity.
Qed.

(** The same when the action resolved with something that is not a data
    URL. *)
Lemma handleGenAction_bad_url w action url e filename st :
  dataURLtoFile url filename = Throw e ->
  hist (fst (handleGenAction w action (Normal url) filename st)) = hist st
  /\ feat (fst (handleGenAction w action (Normal url) filename st)) = feat st.
Proof.
  intros H. unfold handleGenAction. destruct (currentImage st); [|split; reflexivity].
  rewrite H, handleError_toasts. split; reflexivity.
Qed.

End Generation.

(** C6.  When the promise of a generation action (retouch, filter,
    adjustment, background removal, fill, generate, video) rejects, the
    history sequence, the cursor, the mask and every other feature state, the
    refs and the persisted record are as before; if a request went out, the
    one thing added is an error toast with the failure's message, which its
    timer removes again. *)
Theorem C6_failed_generation_leaves_history (a : GenAction) (w : World) (e : Thrown) (st : App) :
  let st' := fst (run_action a w (Throw e) st) in
  let w' := snd (run_action a w (Throw e) st) in
  hist st' = hist st
  /\ feat st' = feat st
  /\ refs st' = refs st
  /\ db w' = db w /\ console w' = console w /\ unhandled w' = unhandled w
  /\ (requests w' = requests w
      \/ (exists r, requests w' = requests w ++ [r])
         /\ isLoading (tool st') = false
         /\ toasts (tool st')
            = toasts (tool st) ++ [mkToast (pretty (now w)) (message_of e) toast_error])
  /\ Forall (fun m => toast_id m <> pretty (now w))
            (toasts (tool (expireToast (pretty (now w)) st'))).
Proof.
  assert (Hexp : forall s : App,
    Forall (fun m => toast_id m <> pretty (now w))
           (toasts (tool (expireToast (pretty (now w)) s)))).
  { intros s. cbn. apply Forall_forall. intros m Hm.
    apply list_elem_of_filter in Hm. tauto. }
  assert (Hgen : forall action filename,
    let r := handleGenAction w action (Throw e) filename st in
    hist (fst r) = hist st /\ feat (fst r) = feat st /\ refs (fst r) = refs st
    /\ db (snd r) = db w /\ console (snd r) = console w /\ unhandled (snd r) = unhandled w
    /\ (requests (snd r) = requests w
        \/ (exists q, requests (snd r) = requests w ++ [q])
           /\ isLoading (tool (fst r)) = false
           /\ toasts (tool (fst r))
              = toasts (tool st) ++ [mkToast (pretty (now w)) (message_of e) toast_error])).
  { intros action filename. cbv zeta. rewrite handleGenAction_rejected.
    destruct (currentImage st) as [image|]; cbn.
    - repeat split. right. repeat split. eexists. reflexivity.
    - repeat split. left. reflexivity. }
  intros st' w'. subst st' w'.
  destruct a; cbn [run_action]; unfold handleRetouch, handleMagicFill;
    repeat match goal with
      | |- context [match editHotspot ?x with _ => _ end] => destruct (editHotspot x)
      | |- context [match maskDataUrl ?x with _ => _ end] => destruct (maskDataUrl x)
      | |- context [if truthy ?x then _ else _] => destruct (truthy x)
      | |- context [if orb ?x ?y then _ else _] => destruct (orb x y)
      end;
    lazymatch goal with
    | |- context [handleGenAction w ?act (Throw e) ?fn st] =>
        destruct (Hgen act fn) as (H1 & H2 & H3 & H4 & H5 & H6 & H7);
        repeat split;
        [exact H1 | exact H2 | exact H3 | exact H4 | exact H5 | exact H6 | exact H7 | apply Hexp]
    | |- _ => cbn [fst snd]; repeat split; try (left; reflexivity); apply Hexp
    end.
Qed.

(** ** Magic Fill submission *)

Section MagicFill.

Implicit Types (st : App) (w : World).

Lemma blank_unpainted coverage width height : unpainted coverage (blank width height).
Proof.
  intros pixel. unfold alpha_at. destruct (in_bounds _ _); reflexivity.
Qed.

Lemma trim_empty_falsy s : trim s = "" -> truthy (trim s) = false.
Proof. intros ->. reflexivity. Qed.

End MagicFill.

(** What the release branch of [handleMaskDraw] lets through: it exports
    the bitmap on every release, also when no stroke was drawn, and
    [handleMagicFill], whose own message asks the user to draw a mask first,
    takes the export for a mask.  A mask without a painted pixel reaches the
    remote service. *)
Lemma unpainted_mask_is_sent :
  let w := fresh_world 0 in
  let st := setMagicPrompt "a pond" lone_mouseup in
  maskDataUrl (feat st) = Some (blank 100 100)
  /\ unpainted hard_coverage (blank 100 100)
  /\ requests (snd (MagicPanel.submit w (Throw OtherValue) st))
     = [generateMagicFillImage fileA (mkMaskFile 100 100 (blank 100 100)) "a pond"].
Proof.
  cbv zeta. split; [reflexivity|]. split; [apply blank_unpainted|]. reflexivity.
Qed.

(** C5, as stated, fails on the instruction.  With a painted mask and an
    empty or blank instruction the panel shows no error at all: its button
    is disabled and nothing happens.  [handleMagicFill] itself has no test of
    the instruction: called with the empty string it sends the request. *)
Lemma C5_empty_instruction_is_no_error :
  let w := fresh_world 0 in
  let mask :=
    mkRaster 100 100 [FillArc (mkPoint 30 30) (40 # 2); FillArc (mkPoint 50 30) (40 # 2)] in
  maskDataUrl (feat two_stamps) = Some mask
  /\ ~ (alpha_at hard_coverage mask (40, 30)%Z == 0)%Q
  /\ magicPrompt (feat two_stamps) = ""
  /\ MagicPanel.submit w (Normal "x") two_stamps = (two_stamps, w)
  /\ MagicPanel.submit w (Normal "x") (setMagicPrompt "  " two_stamps)
     = (setMagicPrompt "  " two_stamps, w)
  /\ toasts (tool two_stamps) = []
  /\ requests (snd (handleMagicFill w "" (Throw OtherValue) two_stamps))
     = [generateMagicFillImage fileA (mkMaskFile 100 100 mask) ""].
Proof.
  cbv zeta. split; [vm_compute; reflexivity|].
  split; [intros H; vm_compute in H; discriminate|].
  repeat split.
Qed.

(** C5, amended.  [handleMagicFill] rejects a submission when no mask has
    been finalized: one error toast, nothing else changed, no request.  An
    empty instruction is not answered with an error: the panel does not
    submit at all while a request is running, while the trimmed instruction
    is empty or while there is no finalized mask, and then nothing changes. *)
Theorem C5_magic_fill_guards (w : World) (outcome : Completion string) (st : App) :
  (forall p : string,
      maskDataUrl (feat st) = None ->
      handleMagicFill w p outcome st
      = (addToast w "Please draw a mask first." toast_error st, w))
  /\ (isLoading (tool st) = true \/ trim (magicPrompt (feat st)) = ""
      \/ maskDataUrl (feat st) = None ->
      MagicPanel.submit w outcome st = (st, w)).
Proof.
  split.
  - intros p H. unfold handleMagicFill. rewrite H. reflexivity.
  - intros H. unfold MagicPanel.submit, MagicPanel.generate_disabled, MagicPanel.hasMask.
    destruct H as [H|[H|H]].
    + rewrite H. reflexivity.
    + rewrite (trim_empty_falsy _ H). cbn. rewrite orb_true_r. reflexivity.
    + rewrite H. rewrite bool_decide_eq_false_2 by (intros [x Hx]; discriminate).
      cbn. rewrite orb_true_r. reflexivity.
Qed.

Lemma C5_magic_fill_guards_witness :
  let w := fresh_world 0 in
  toasts (tool (fst (handleMagicFill w "a pond" (Normal "x") masking)))
  = [mkToast "0" "Please draw a mask first." toast_error]
  /\ requests (snd (handleMagicFill w "a pond" (Normal "x") masking)) = []
  /\ MagicPanel.submit w (Normal "x") (setMagicPrompt " " two_stamps)
     = (setMagicPrompt " " two_stamps, w)
  /\ MagicPanel.submit w (Normal "x") (setMagicPrompt "a pond" masking)
     = (setMagicPrompt "a pond" masking, w).
Proof.
  intros w.
  destruct (C5_magic_fill_guards w (Normal "x") masking) as (H1 & _).
  destruct (C5_magic_fill_guards w (Normal "x") (setMagicPrompt " " two_stamps)) as (_ & H2).
  destruct (C5_magic_fill_guards w (Normal "x") (setMagicPrompt "a pond" masking)) as (_ & H3).
  split; [rewrite (H1 "a pond" eq_refl); reflexivity|].
  split; [rewrite (H1 "a pond" eq_refl); reflexivity|].
  split; [apply H2; right; left; reflexivity|].
  apply H3; right; right; reflexivity.
Defined.

(** ** Mask painting *)

Section Storage8.

Local Open Scope Q_scope.

Lemma step_of (k : Z) : k # 255 == inject_Z k / 255.
Proof. rewrite (Qmake_Qdiv k 255). reflexivity. Qed.

(** What is stored is within half a step of what was written. *)
Lemma store8_near (x : Q) : x - (1 # 510) < store8 x <= x + (1 # 510).
Proof.
  unfold store8. rewrite (step_of (Qfloor (x * 255 + (1 # 2)))).
  pose proof (Qfloor_le (x * 255 + (1 # 2))) as Hl.
  pose proof (Qlt_floor (x * 255 + (1 # 2))) as Hu.
  rewrite inject_Z_plus in Hu. change (inject_Z 1) with 1 in Hu.
  set (f := inject_Z (Qfloor (x * 255 + (1 # 2)))) in *. clearbody f.
  split.
  - apply Qlt_shift_div_l; [reflexivity|]. lra.
  - apply Qle_shift_div_r; [reflexivity|]. lra.
Qed.

Lemma store8_mono (x y : Q) : x <= y -> store8 x <= store8 y.
Proof.
  intros H. unfold store8.
  assert (Hf : (Qfloor (x * 255 + (1 # 2)) <= Qfloor (y * 255 + (1 # 2)))%Z).
  { apply Qfloor_resp_le. lra. }
  unfold Qle. cbn [Qnum Qden]. lia.
Qed.

(** A stored value is stored as it is. *)
Lemma store8_step (k : Z) : store8 (k # 255) = k # 255.
Proof.
  unfold store8. f_equal.
  assert (E : (k # 255) * 255 + (1 # 2) == inject_Z k + (1 # 2)).
  { rewrite (step_of k). field. }
  rewrite E.
  pose proof (Qfloor_le (inject_Z k + (1 # 2))) as Hl.
  pose proof (Qlt_floor (inject_Z k + (1 # 2))) as Hu.
  rewrite inject_Z_plus in Hu. change (inject_Z 1) with 1 in Hu.
  set (f := Qfloor (inject_Z k + (1 # 2))) in *. clearbody f.
  assert (H1 : inject_Z f <= inject_Z k).
  { apply Qnot_lt_le. intros Hc. rewrite <- Zlt_Qlt in Hc.
    assert (Hc' : (k + 1 <= f)%Z) by lia. rewrite Zle_Qle, inject_Z_plus in Hc'.
    change (inject_Z 1) with 1 in Hc'. lra. }
  assert (H2 : inject_Z k <= inject_Z f).
  { apply Qnot_lt_le. intros Hc. rewrite <- Zlt_Qlt in Hc.
    assert (Hc' : (f + 1 <= k)%Z) by lia. rewrite Zle_Qle, inject_Z_plus in Hc'.
    change (inject_Z 1) with 1 in Hc'. lra. }
  rewrite <- Zle_Qle in H1, H2. lia.
Qed.

Lemma store8_range (x : Q) : 0 <= x <= 1 -> 0 <= store8 x <= 1.
Proof.
  intros [H0 H1]. unfold store8.
  assert (Hl : (Qfloor 0 <= Qfloor (x * 255 + (1 # 2)))%Z) by (apply Qfloor_resp_le; lra).
  assert (Hu : (Qfloor (x * 255 + (1 # 2)) <= Qfloor (255 + (1 # 2)))%Z)
    by (apply Qfloor_resp_le; lra).
  change (Qfloor 0) with 0%Z in Hl. change (Qfloor (255 + (1 # 2))) with 255%Z in Hu.
  unfold Qle. cbn [Qnum Qden]. lia.
Qed.

Lemma store8_eq (x y : Q) : x == y -> store8 x = store8 y.
Proof. intros H. unfold store8. rewrite H. reflexivity. Qed.

Lemma store8_stored (x : Q) : 0 <= x <= 1 -> stored (store8 x).
Proof.
  intros H. pose proof (store8_range x H) as Hr. unfold store8 in *.
  exists (Qfloor (x * 255 + (1 # 2))). split; [|reflexivity].
  unfold Qle in Hr. cbn [Qnum Qden] in Hr. lia.
Qed.

Lemma stored_kept (a : Q) : stored a -> store8 a == a.
Proof. intros (k & _ & E). rewrite (store8_eq _ _ E), store8_step, E. reflexivity. Qed.

Lemma stored_range (a : Q) : stored a -> 0 <= a <= 1.
Proof. intros (k & Hk & E). rewrite E. unfold Qle. cbn [Qnum Qden]. lia. Qed.

(** Writing at least what is stored never stores less. *)
Lemma store8_grows (a x : Q) : stored a -> a <= x -> a <= store8 x.
Proof.
  intros Ha Hx. rewrite <- (stored_kept a Ha) at 1. apply store8_mono, Hx.
Qed.

End Storage8.

Section Painting.

Variable coverage : PaintOp -> Z * Z -> Q.
Hypothesis coverage_fraction : fraction coverage.

Local Open Scope Q_scope.

Lemma source_over_range (s a : Q) : 0 <= s <= 1 -> 0 <= a <= 1 -> 0 <= source_over s a <= 1.
Proof. unfold source_over. intros Hs Ha. apply store8_range. split; nra. Qed.

Lemma source_over_stored (s a : Q) : 0 <= s <= 1 -> 0 <= a <= 1 -> stored (source_over s a).
Proof. unfold source_over. intros Hs Ha. apply store8_stored. split; nra. Qed.

Lemma source_over_grows (s a : Q) : 0 <= s <= 1 -> stored a -> a <= source_over s a.
Proof.
  unfold source_over. intros Hs Ha. pose proof (stored_range a Ha) as Hr.
  apply store8_grows; [exact Ha | nra].
Qed.

Lemma apply_op_stored op pixel (a : Q) :
  0 <= a <= 1 -> stored (apply_op coverage op pixel a).
Proof.
  intros Ha. pose proof (coverage_fraction op pixel) as Hc.
  destruct op; cbn [apply_op].
  1, 2: apply source_over_stored; [unfold paint_alpha; split; nra | exact Ha].
  apply store8_stored. split; nra.
Qed.

Lemma apply_op_range op pixel (a : Q) :
  0 <= a <= 1 -> 0 <= apply_op coverage op pixel a <= 1.
Proof. intros Ha. apply stored_range, apply_op_stored, Ha. Qed.

Lemma alpha_of_snoc commands op pixel :
  alpha_of coverage (commands ++ [op]) pixel
  = apply_op coverage op pixel (alpha_of coverage commands pixel).
Proof. unfold alpha_of. rewrite foldl_app. reflexivity. Qed.

Lemma alpha_of_stored commands pixel : stored (alpha_of coverage commands pixel).
Proof.
  induction commands as [|op commands IH] using rev_ind.
  - exists 0%Z. split; [lia | reflexivity].
  - rewrite alpha_of_snoc. apply apply_op_stored, stored_range, IH.
Qed.

Lemma alpha_of_range commands pixel : 0 <= alpha_of coverage commands pixel <= 1.
Proof. apply stored_range, alpha_of_stored. Qed.

Lemma alpha_at_stored r pixel : stored (alpha_at coverage r pixel).
Proof.
  unfold alpha_at. destruct (in_bounds r pixel); [apply alpha_of_stored|].
  exists 0%Z. split; [lia | reflexivity].
Qed.

Lemma alpha_at_range r pixel : 0 <= alpha_at coverage r pixel <= 1.
Proof. apply stored_range, alpha_at_stored. Qed.

Lemma alpha_at_draw op r pixel :
  in_bounds r pixel = true ->
  alpha_at coverage (draw op r) pixel = apply_op coverage op pixel (alpha_at coverage r pixel).
Proof.
  intros Hb. unfold alpha_at, draw, in_bounds in *. cbn [width height ops].
  rewrite Hb. apply alpha_of_snoc.
Qed.

End Painting.

Lemma hard_coverage_fraction : fraction hard_coverage.
Proof.
  intros op pixel. unfold hard_coverage.
  destruct op; repeat match goal with |- context [if ?b then _ else _] => destruct b end;
    split; lra.
Qed.

(** C4, as stated, fails: after two overlapping stamps of the same brush
    the pixels under one stamp have alpha 4/5 (204/255) and those under both
    have 49/51 (245/255); no painted pixel is fully opaque and the overlap
    shows. *)
Lemma C4_overlap_is_more_opaque :
  let mask :=
    mkRaster 100 100 [FillArc (mkPoint 30 30) (40 # 2); FillArc (mkPoint 50 30) (40 # 2)] in
  maskDataUrl (feat two_stamps) = Some mask
  /\ (alpha_at hard_coverage mask (15, 30)%Z == 204 # 255)%Q
  /\ (alpha_at hard_coverage mask (40, 30)%Z == 245 # 255)%Q
  /\ ~ (alpha_at hard_coverage mask (40, 30)%Z == alpha_at hard_coverage mask (15, 30)%Z)%Q
  /\ ~ (alpha_at hard_coverage mask (40, 30)%Z == 1)%Q
  /\ ~ (paint_alpha == 1)%Q.
Proof.
  cbv zeta. split; [vm_compute; reflexivity|].
  split; [vm_compute; reflexivity|]. split; [vm_compute; reflexivity|].
  split; [|split]; intros H; vm_compute in H; discriminate.
Qed.

(** C4, amended.  The paint is fixed but not opaque (alpha 4/5, composited
    source-over), so painting accumulates.  A command changes the alpha a of
    a pixel inside the canvas to a + 4/5 c (1 - a), where c is the fraction
    of the pixel the command covers, as the bitmap stores it: a multiple of
    1/255 less than one step away.  Alpha never decreases and stays at most
    1; a pixel that is not covered keeps its alpha; a blank pixel that is
    fully covered gets exactly 4/5; a fully covered pixel of alpha at most
    253/255 gets strictly more opaque; a fully opaque pixel stays so. *)
Theorem C4_painting_accumulates_alpha (coverage : PaintOp -> Z * Z -> Q)
    (op : PaintOp) (r : Raster) (pixel : Z * Z) :
  fraction coverage -> is_paint op = true -> in_bounds r pixel = true ->
  let a := alpha_at coverage r pixel in
  let a' := alpha_at coverage (draw op r) pixel in
  let blended := (a + (4 # 5) * coverage op pixel * (1 - a))%Q in
  ((exists k : Z, (0 <= k <= 255)%Z /\ a' == k # 255)
   /\ blended - (1 # 255) < a' < blended + (1 # 255)
   /\ a <= a' <= 1
   /\ (coverage op pixel == 0 -> a' == a)
   /\ (coverage op pixel == 1 -> a == 0 -> a' == 4 # 5)
   /\ (coverage op pixel == 1 -> a <= 253 # 255 -> a < a')
   /\ (a == 1 -> a' == 1))%Q.
Proof.
  intros Hf Hp Hb a a' blended.
  pose proof (alpha_at_stored coverage Hf r pixel) as Hs. fold a in Hs.
  pose proof (stored_range a Hs) as Ha.
  pose proof (Hf op pixel) as Hc.
  assert (E : a' = store8 blended).
  { subst a' blended. rewrite (alpha_at_draw coverage op r pixel Hb). fold a.
    destruct op; try discriminate; cbn [apply_op]; unfold source_over, paint_alpha;
      apply store8_eq; ring. }
  assert (Hin : (0 <= blended <= 1)%Q) by (subst blended; clear - Ha Hc; split; nra).
  pose proof (store8_near blended) as Hn. rewrite <- E in Hn.
  pose proof (store8_range blended Hin) as Hr. rewrite <- E in Hr.
  assert (Hk : forall k : Z, (blended == k # 255)%Q -> (a' == k # 255)%Q).
  { intros k Ek. rewrite E, (store8_eq _ _ Ek), store8_step. reflexivity. }
  split; [rewrite E; apply store8_stored, Hin|].
  split; [clear - Hn; split; lra|].
  split; [split; [rewrite E; apply store8_grows; [exact Hs|]; subst blended; clear - Ha Hc; nra
                 | apply Hr]|].
  split.
  { intros H0. destruct Hs as (k & _ & Ek). rewrite Ek. apply Hk.
    subst blended. rewrite H0, <- Ek. ring. }
  split.
  { intros H1 H0. rewrite (Hk 204%Z); [reflexivity|].
    subst blended. rewrite H1, H0. reflexivity. }
  split.
  { intros H1 Hlt. assert (Hb' : (blended == (4 # 5) + (1 # 5) * a)%Q)
      by (subst blended; rewrite H1; ring).
    clear - Hn Hb' Hlt. lra. }
  intros H1. rewrite (Hk 255%Z); [reflexivity|].
  subst blended. rewrite H1. ring_simplify. reflexivity.
Qed.

Lemma C4_painting_accumulates_alpha_witness :
  let once := draw (FillArc (mkPoint 30 30) 20) (blank 100 100) in
  let twice := draw (FillArc (mkPoint 50 30) 20) once in
  (alpha_at hard_coverage once (40, 30)%Z == 4 # 5)%Q
  /\ (alpha_at hard_coverage once (40, 30)%Z < alpha_at hard_coverage twice (40, 30)%Z)%Q
  /\ (alpha_at hard_coverage twice (40, 30)%Z == 245 # 255)%Q
  /\ (alpha_at hard_coverage twice (15, 30)%Z == alpha_at hard_coverage once (15, 30)%Z)%Q.
Proof.
  intros once twice.
  destruct (C4_painting_accumulates_alpha hard_coverage (FillArc (mkPoint 30 30) 20)
              (blank 100 100) (40, 30)%Z hard_coverage_fraction eq_refl eq_refl)
    as (_ & _ & _ & _ & Hfirst & _).
  destruct (C4_painting_accumulates_alpha hard_coverage (FillArc (mkPoint 50 30) 20) once
              (40, 30)%Z hard_coverage_fraction eq_refl eq_refl) as (_ & _ & _ & _ & _ & Hgrow & _).
  destruct (C4_painting_accumulates_alpha hard_coverage (FillArc (mkPoint 50 30) 20) once
              (15, 30)%Z hard_coverage_fraction eq_refl eq_refl) as (_ & _ & _ & Hsame & _).
  split; [apply Hfirst; vm_compute; reflexivity|].
  split; [apply Hgrow; [vm_compute; reflexivity | vm_compute; discriminate]|].
  split; [vm_compute; reflexivity|].
  apply Hsame. vm_compute. reflexivity.
Defined.

(** ** Finalizing the mask *)

Section Finalize.

Implicit Types (st : App) (e : PointerEvent).

(** A mouse-up or mouse-leave over the canvas while masking exports the
    bitmap as it is, whether or not a stroke was in progress. *)
Lemma handleMaskDraw_mouse_release e st canvas :
  maskCanvasRef (refs st) = Some canvas -> context2d canvas = true ->
  isMasking (feat st) = true -> touches e = None ->
  event_type e = mouseup \/ event_type e = mouseleave ->
  snd (handleMaskDraw e st) = None
  /\ maskDataUrl (feat (fst (handleMaskDraw e st))) = Some (bitmap canvas)
  /\ isDrawingRef (refs (fst (handleMaskDraw e st))) = false
  /\ maskCanvasRef (refs (fst (handleMaskDraw e st))) = Some canvas.
Proof.
  intros Hc Hctx Hm Ht Hty. unfold handleMaskDraw, client_point.
  rewrite Hc, Hm, Ht, Hctx. destruct Hty as [-> | ->]; cbn; rewrite ?Hc; repeat split.
Qed.

(** Hence a mask without a painted pixel: masking on, one mouse-up. *)
Lemma lone_mouseup_blank_mask :
  maskDataUrl (feat lone_mouseup) = Some (blank 100 100)
  /\ unpainted hard_coverage (blank 100 100).
Proof. split; [reflexivity | apply blank_unpainted]. Qed.

(** A touch-end that leaves another finger on the canvas exports too. *)
Lemma handleMaskDraw_touchend_remaining t ts st canvas :
  maskCanvasRef (refs st) = Some canvas -> context2d canvas = true ->
  isMasking (feat st) = true ->
  snd (handleMaskDraw (touch touchend (t :: ts)) st) = None
  /\ maskDataUrl (feat (fst (handleMaskDraw (touch touchend (t :: ts)) st)))
     = Some (bitmap canvas).
Proof.
  intros Hc Hctx Hm. unfold handleMaskDraw, client_point.
  rewrite Hc, Hm, Hctx. cbn. split; reflexivity.
Qed.

End Finalize.

(** C10.  When the only finger is lifted, [touches] is empty and the
    handler throws while computing the coordinates, before it looks at the
    event type: the stroke stays "in progress" and no mask is exported. *)
Theorem C10_touchend_without_touches_throws :
  isMasking (feat finger_down) = true
  /\ isDrawingRef (refs finger_down) = true
  /\ handleMaskDraw (touch touchend []) finger_down
     = (finger_down,
        Some (ErrorObj "Cannot read properties of undefined (reading 'clientX')"))
  /\ maskDataUrl (feat (mask_events [touch touchend []] finger_down)) = None
  /\ isDrawingRef (refs (mask_events [touch touchend []] finger_down)) = true.
Proof. repeat split. Qed.

(** ** Reset and persistence *)

Section Persistence.

Implicit Types (st : App) (w : World) (io : Io).

Lemma saveEffect_empty io w st : history (hist st) = [] -> saveEffect io w st = w.
Proof. unfold saveEffect. intros ->. reflexivity. Qed.

(** A change of a non-empty history is written to the store. *)
Lemma after_render_saves w before after :
  hist before <> hist after -> history (hist after) <> [] ->
  db (after_render io_ok before w after) !! session_key
  = Some (mkSession session_key (history (hist after)) (cursor after) (now w)).
Proof.
  intros Hne Hlen. unfold after_render. destruct (decide _) as [E|_]; [contradiction|].
  unfold saveEffect. destruct (history (hist after)) eqn:Hh; [contradiction|].
  cbn. apply lookup_insert_eq.
Qed.

(** A failed save is logged with [console.error] and nothing else
    happens. *)
Lemma after_render_save_fails e w before after :
  after_render (io_fail e) before w after = w
  \/ after_render (io_fail e) before w after = log (console_error e) w.
Proof.
  unfold after_render, saveEffect. destruct (decide _); [left; reflexivity|].
  destruct (0 <? _); [right | left]; reflexivity.
Qed.

(** A failed load is logged with [console.warn]; the editor starts empty. *)
Lemma loadEffect_fails e w st : loadEffect (io_fail e) w st = (st, log (console_warn e) w).
Proof. reflexivity. Qed.

End Persistence.

(** C7.  After a reset whose [clearSession] went through, the history is
    empty, the cursor is -1 and the session record is gone; the save effect
    that follows writes nothing, so that loading yields no session and a
    start-up restores nothing. *)
Theorem C7_reset_empties_store_and_record (w : World) (st : App) :
  let st' := fst (handleClear io_ok w st) in
  let w' := snd (handleClear io_ok w st) in
  history (hist st') = []
  /\ length_of st' = 0
  /\ cursor st' = -1
  /\ db w' !! session_key = None
  /\ (forall io, after_render io st w' st' = w')
  /\ loadSession io_ok w' = Normal None
  /\ (forall io, fst (loadEffect io w' initial) = initial).
Proof.
  cbn [handleClear clearSession fst snd].
  assert (Hdb : db (with_db (delete session_key (db w)) w) !! session_key = None)
    by apply lookup_delete_eq.
  repeat split.
  - exact Hdb.
  - intros io. unfold after_render. destruct (decide _); [reflexivity|].
    apply saveEffect_empty. reflexivity.
  - unfold loadSession. rewrite Hdb. reflexivity.
  - intros [|e]; [|reflexivity]. unfold loadEffect, loadSession. rewrite Hdb. reflexivity.
Qed.

(** C8.  When [clearSession] rejects, [handleClear] stops at the [await]:
    the history and the cursor are not reset, the record stays, and the
    rejection is neither caught nor logged. *)
Theorem C8_failed_clear_prevents_reset :
  let st := editing [fileA; fileB] 1 in
  let e := ErrorObj "The transaction was aborted." in
  db saved_world !! session_key = Some (mkSession session_key [fileA; fileB] 1 5)
  /\ handleClear (io_fail e) saved_world st = (st, unhandled_rejection e saved_world)
  /\ hist (fst (handleClear (io_fail e) saved_world st)) = mkHistory [fileA; fileB] 1
  /\ console (snd (handleClear (io_fail e) saved_world st)) = []
  /\ unhandled (snd (handleClear (io_fail e) saved_world st)) = [e]
  /\ db (snd (handleClear (io_fail e) saved_world st)) !! session_key
     = Some (mkSession session_key [fileA; fileB] 1 5).
Proof. repeat split. Qed.

(** ** The polling loop of video generation *)

Section Polling.

Import Veo.

Variable reply : nat -> Completion Operation.

Lemma run_add (a b : nat) : forall l,
  run reply (a + b) l
  = match run reply a l with
    | Polling l' => run reply b l'
    | settled => settled
    end.
Proof.
  induction a as [|a IH]; intros l; cbn [Nat.add run]; [reflexivity|].
  destruct (iteration reply l); [apply IH | reflexivity | reflexivity].
Qed.

Lemma observed_from_step (l : Loop) (op : Operation) (j : nat) :
  reply (polls l) = Normal op ->
  observed_from reply (mkLoop op (S (polls l)) (sleeps l ++ [5000])) j
  = observed_from reply l (S j).
Proof.
  intros H. destruct j as [|j]; cbn [observed_from operation polls].
  - rewrite Nat.add_0_r. symmetry. exact H.
  - f_equal. lia.
Qed.

(** As long as every test so far saw a pending operation and the last
    request was answered, the loop is still running, one request and one
    5000 ms delay per test. *)
Lemma run_polling (n : nat) : forall (l : Loop) (op : Operation),
  (forall j, (j < n)%nat -> pending (observed_from reply l j)) ->
  observed_from reply l n = Normal op ->
  run reply n l = Polling (mkLoop op (polls l + n) (sleeps l ++ replicate n 5000)).
Proof.
  induction n as [|n IH]; intros l op Hpend Hlast.
  - cbn in Hlast. injection Hlast as <-. cbn [run replicate].
    rewrite Nat.add_0_r, app_nil_r. destruct l; reflexivity.
  - destruct (Hpend 0%nat ltac:(lia)) as (op0 & Hop0 & Hdone0).
    cbn in Hop0. injection Hop0 as <-.
    assert (Hnext : exists op1, reply (polls l) = Normal op1).
    { destruct n as [|n].
      - exists op. cbn in Hlast. rewrite Nat.add_0_r in Hlast. exact Hlast.
      - destruct (Hpend 1%nat ltac:(lia)) as (op1 & Hop1 & _).
        exists op1. cbn in Hop1. rewrite Nat.add_0_r in Hop1. exact Hop1. }
    destruct Hnext as (op1 & Hop1).
    cbn [run]. unfold iteration. rewrite Hdone0, Hop1.
    rewrite (IH _ op).
    + cbn [polls sleeps]. f_equal. f_equal; [lia|].
      rewrite <- app_assoc. reflexivity.
    + intros j Hj. rewrite (observed_from_step l op1 j Hop1). apply Hpend. lia.
    + rewrite (observed_from_step l op1 n Hop1). exact Hlast.
Qed.

Lemma run_exited (n : nat) : forall l l',
  run reply n l = Exited l' -> done (operation l') = true.
Proof.
  induction n as [|n IH]; intros l l'; cbn [run]; [discriminate|].
  unfold iteration. destruct (done (operation l)) eqn:Hd.
  - intros [= <-]. exact Hd.
  - destruct (reply (polls l)); [apply IH | discriminate].
Qed.

Lemma run_failed (n : nat) : forall l e l',
  run reply n l = Failed e l' -> reply (Nat.pred (polls l')) = Throw e.
Proof.
  induction n as [|n IH]; intros l e l'; cbn [run]; [discriminate|].
  unfold iteration. destruct (done (operation l)) eqn:Hd; [discriminate|].
  destruct (reply (polls l)) eqn:Hr; [apply IH|].
  intros [= <- <-]. cbn. exact Hr.
Qed.

Lemma replicate_snoc {A} (n : nat) (x : A) : replicate n x ++ [x] = replicate (S n) x.
Proof. induction n as [|n IH]; cbn; [reflexivity|]. rewrite IH. reflexivity. Qed.

End Polling.

(** C9.  The loop of [generateVeoVideo] sends one poll request after each
    5000 ms delay, always the same delay, and has no other way out than a
    test that sees [done] or a request that fails.  If every operation the
    loop sees is pending, it is still polling after any number of
    iterations, and the function has not returned.  If the first operation
    that is not pending is the k-th one seen, the loop exits having sent
    exactly k requests; if instead the request after k pending operations
    fails, the loop ends with that failure.  Conversely a loop that exited
    holds an operation that is done, and a loop that failed holds the
    failure of its last request. *)
Theorem C9_polling_loop (reply : nat -> Completion Veo.Operation) (submitted : Veo.Operation) :
  (forall n : nat,
      (forall j, (j <= n)%nat -> Veo.pending (Veo.observed reply submitted j)) ->
      exists op, Veo.run reply n (Veo.start submitted)
                 = Veo.Polling (Veo.mkLoop op n (replicate n 5000)))
  /\ ((forall j, Veo.pending (Veo.observed reply submitted j)) ->
      forall (n : nat) (api_key : string),
        Veo.generateVeoVideo_from reply api_key n submitted = None)
  /\ (forall (k : nat) (op : Veo.Operation),
        (forall j, (j < k)%nat -> Veo.pending (Veo.observed reply submitted j)) ->
        Veo.observed reply submitted k = Normal op -> Veo.done op = true ->
        forall n, (k < n)%nat ->
          Veo.run reply n (Veo.start submitted)
          = Veo.Exited (Veo.mkLoop op k (replicate k 5000)))
  /\ (forall (k : nat) (e : Thrown),
        (forall j, (j <= k)%nat -> Veo.pending (Veo.observed reply submitted j)) ->
        reply k = Throw e ->
        forall n, (k < n)%nat ->
          exists op, Veo.run reply n (Veo.start submitted)
                     = Veo.Failed e (Veo.mkLoop op (S k) (replicate (S k) 5000)))
  /\ (forall n l, Veo.run reply n (Veo.start submitted) = Veo.Exited l ->
        Veo.done (Veo.operation l) = true)
  /\ (forall n e l, Veo.run reply n (Veo.start submitted) = Veo.Failed e l ->
        reply (Nat.pred (Veo.polls l)) = Throw e).
Proof.
  assert (Hpoll : forall n,
    (forall j, (j <= n)%nat -> Veo.pending (Veo.observed reply submitted j)) ->
    exists op, Veo.done op = false
      /\ Veo.run reply n (Veo.start submitted)
         = Veo.Polling (Veo.mkLoop op n (replicate n 5000))).
  { intros n Hpend. destruct (Hpend n (le_n n)) as (op & Hop & Hdone).
    exists op. split; [exact Hdone|].
    rewrite (run_polling reply n (Veo.start submitted) op); [reflexivity| |exact Hop].
    intros j Hj. apply Hpend. lia. }
  split; [|split; [|split; [|split; [|split]]]].
  - intros n Hpend. destruct (Hpoll n Hpend) as (op & _ & H). exists op. exact H.
  - intros Hpend n api_key. unfold Veo.generateVeoVideo_from.
    destruct (Hpoll n (fun j _ => Hpend j)) as (op & _ & ->). reflexivity.
  - intros k op Hpend Hk Hdone n Hn.
    replace n with (k + S (n - S k))%nat by lia. rewrite run_add.
    rewrite (run_polling reply k (Veo.start submitted) op Hpend Hk).
    cbn [Veo.run]. unfold Veo.iteration. cbn [Veo.operation]. rewrite Hdone.
    reflexivity.
  - intros k e Hpend He n Hn.
    destruct (Hpoll k Hpend) as (op & Hdone & Hrun). exists op.
    replace n with (k + S (n - S k))%nat by lia. rewrite run_add, Hrun.
    cbn [Veo.run]. unfold Veo.iteration. cbn [Veo.operation Veo.polls Veo.sleeps].
    rewrite Hdone, He. rewrite replicate_snoc. reflexivity.
  - intros n l. apply run_exited.
  - intros n e l. apply run_failed.
Qed.

Lemma C9_polling_loop_witness :
  let pending_op := Veo.mkOperation false None in
  Veo.generateVeoVideo_from never_done "KEY" 1000 pending_op = None
  /\ Veo.run done_at_third 5 (Veo.start pending_op)
     = Veo.Exited (Veo.mkLoop (Veo.mkOperation true (Some "https://videos.example/v1?alt=media"))
                              3 [5000; 5000; 5000])
  /\ (exists op, Veo.run fails_at_second 9 (Veo.start pending_op)
                 = Veo.Failed (ErrorObj "Failed to fetch") (Veo.mkLoop op 2 [5000; 5000])).
Proof.
  intros pending_op.
  assert (Hnever : forall j, Veo.pending (Veo.observed never_done pending_op j))
    by (intros [|j]; eexists; split; reflexivity).
  assert (Hthird : forall j, (j < 3)%nat -> Veo.pending (Veo.observed done_at_third pending_op j))
    by (intros [|[|[|j]]] Hj; [eexists; split; reflexivity ..| lia]).
  assert (Hsecond : forall j, (j <= 1)%nat ->
                      Veo.pending (Veo.observed fails_at_second pending_op j))
    by (intros [|[|j]] Hj; [eexists; split; reflexivity ..| lia]).
  destruct (C9_polling_loop never_done pending_op) as (_ & Hforever & _).
  destruct (C9_polling_loop done_at_third pending_op) as (_ & _ & Hexit & _).
  destruct (C9_polling_loop fails_at_second pending_op) as (_ & _ & _ & Hfail & _).
  split; [exact (Hforever Hnever 1000%nat "KEY")|].
  split; [exact (Hexit 3%nat _ Hthird eq_refl eq_refl 5%nat ltac:(lia))|].
  exact (Hfail 1%nat _ Hsecond eq_refl 9%nat ltac:(lia)).
Defined.

(** * Further properties of the code *)

(** ** Undo, redo and append *)

(** X1.  Redo undoes undo and undo undoes redo, whenever the first of the
    two moves the cursor: redo after undo restores the state if the cursor
    was above 0 and inside the history; undo after redo restores it if the
    cursor was at least 0 and below the last index. *)
Theorem X1_undo_redo_inverse (st : App) :
  (0 < cursor st <= length_of st - 1 -> handleRedo (handleUndo st) = st)
  /\ (0 <= cursor st < length_of st - 1 -> handleUndo (handleRedo st) = st).
Proof.
  split; intros H.
  - unfold handleUndo. fold (cursor st). destruct (0 <? cursor st) eqn:E; [|lia].
    unfold handleRedo. cbn [setHistoryIndex with_hist hist history historyIndex].
    fold (length_of st).
    destruct (cursor st - 1 <? length_of st - 1) eqn:E2; [|lia].
    replace (cursor st - 1 + 1) with (cursor st) by lia.
    destruct st as [[h c] t fe r]. reflexivity.
  - unfold handleRedo. fold (cursor st) (length_of st).
    destruct (cursor st <? length_of st - 1) eqn:E; [|lia].
    unfold handleUndo. cbn [setHistoryIndex with_hist hist history historyIndex].
    destruct (0 <? cursor st + 1) eqn:E2; [|lia].
    replace (cursor st + 1 - 1) with (cursor st) by lia.
    destruct st as [[h c] t fe r]. reflexivity.
Qed.

Lemma X1_undo_redo_inverse_witness :
  handleRedo (handleUndo (editing [fileA; fileB; fileC] 1)) = editing [fileA; fileB; fileC] 1
  /\ handleUndo (handleRedo (editing [fileA; fileB; fileC] 1)) = editing [fileA; fileB; fileC] 1.
Proof.
  destruct (X1_undo_redo_inverse (editing [fileA; fileB; fileC] 1)) as [H1 H2].
  split; [apply H1 | apply H2]; vm_compute; split; congruence.
Defined.

(** X2.  The original image, [history[0]], survives every sequence of
    appends, undos and redos that starts with a non-empty history and a
    cursor of at least 0: only a reset replaces it. *)
Theorem X2_original_image_kept (ops : list StoreOp) (st : App) (w : World) :
  history (hist st) <> [] -> 0 <= cursor st ->
  forallb (fun op => negb (is_reset op)) ops = true ->
  Forall (fun sw => originalImage (fst sw) = originalImage st /\ 0 <= cursor (fst sw))
         (store_trace ops (st, w)).
Proof.
  revert st. induction ops as [|op ops IH]; intros st Hne Hc Hops; cbn [store_trace].
  - constructor.
  - cbn [forallb] in Hops. apply andb_true_iff in Hops as [Hop Hops].
    assert (Hstep : originalImage (fst (store_step op (st, w))) = originalImage st
                    /\ 0 <= cursor (fst (store_step op (st, w)))
                    /\ history (hist (fst (store_step op (st, w)))) <> []).
    { destruct op; try discriminate; cbn [store_step fst].
      - unfold originalImage. rewrite addToHistory_hist. cbn [history historyIndex].
        unfold slice, relative_index. unfold cursor in *. cbn [hist historyIndex].
        replace (0 <? 0) with false by reflexivity.
        destruct (_ + 1 <? 0) eqn:E; [apply Z.ltb_lt in E; clear - E Hc; lia|].
        clear E. rewrite (Z.min_l 0) by lia. rewrite Z.sub_0_r. cbn [Z.to_nat drop].
        split; [|split].
        + destruct (history (hist st)) as [|a l] eqn:Hh; [contradiction|].
          assert (Hpos : (0 < Z.to_nat (Z.min (historyIndex (hist st) + 1) (Z.of_nat (length (a :: l)))))%nat)
            by (cbn [length]; lia).
          destruct (Z.to_nat _); [lia|]. reflexivity.
        + rewrite addToHistory_hist. cbn [historyIndex]. rewrite length_app. cbn [length]. lia.
        + intros Habs. apply app_eq_nil in Habs as [_ Habs]. discriminate.
      - unfold originalImage. rewrite handleUndo_history, handleUndo_cursor.
        split; [reflexivity|]. split; [destruct (0 <? cursor st) eqn:E; lia | exact Hne].
      - unfold originalImage. rewrite handleRedo_history, handleRedo_cursor.
        split; [reflexivity|]. split; [destruct (_ <? _) eqn:E; lia | exact Hne]. }
    destruct Hstep as (Ho & Hc' & Hne').
    constructor; [split; assumption|].
    destruct (store_step op (st, w)) as [st' w'] eqn:Est. cbn [fst] in *.
    assert (Hw : w' = w).
    { destruct op; try discriminate; cbn in Est; injection Est as _ <-; reflexivity. }
    subst w'. specialize (IH st' Hne' Hc' Hops).
    eapply Forall_impl; [exact IH|]. intros [s x] [H1 H2]. cbn [fst] in *.
    split; [rewrite H1; exact Ho | exact H2].
Qed.

Lemma X2_original_image_kept_witness :
  let st := editing [fileA; fileB] 1 in
  originalImage
    (fst (store_step (Append fileC) (store_step Undo (st, fresh_world 0)))) = Some fileA.
Proof.
  intros st.
  pose proof (X2_original_image_kept [Undo; Append fileC] st (fresh_world 0)
                ltac:(discriminate) ltac:(vm_compute; discriminate) eq_refl) as H.
  cbn [store_trace] in H.
  apply Forall_cons_1 in H as [_ H]. apply Forall_cons_1 in H as [[H _] _]. exact H.
Defined.

(** X3.  Whatever the state before, also one with a cursor outside the
    history: after an append the new file is the current image, the
    invariant of the store holds and redo does nothing.  A cursor at or
    beyond the end keeps the whole history; a cursor of -1 keeps nothing. *)
Theorem X3_append_from_any_state (st : App) (w : World) (f : File) :
  let st' := addToHistory w f st in
  currentImage st' = Some f
  /\ history_invariant st'
  /\ handleRedo st' = st'
  /\ (length_of st - 1 <= cursor st -> history (hist st') = history (hist st) ++ [f])
  /\ (cursor st = -1 -> history (hist st') = [f]).
Proof.
  intros st'. subst st'. split; [|split; [|split; [|split]]].
  - unfold currentImage. rewrite addToHistory_hist. cbn [history historyIndex].
    generalize (slice (history (hist st)) 0 (cursor st + 1)). intros l.
    unfold index. rewrite length_app. cbn [length].
    destruct (_ <? 0) eqn:E; [apply Z.ltb_lt in E; lia|].
    replace (Z.to_nat (Z.of_nat (length l + 1) - 1)) with (length l + 0)%nat by lia.
    rewrite lookup_app_r by lia. replace (length l + 0 - length l)%nat with 0%nat by lia.
    reflexivity.
  - apply addToHistory_invariant.
  - unfold handleRedo. rewrite addToHistory_hist. cbn [history historyIndex].
    rewrite Z.ltb_irrefl. reflexivity.
  - intros H. rewrite addToHistory_hist. cbn [history]. f_equal.
    unfold slice, relative_index, length_of in *. fold (cursor st).
    replace (0 <? 0) with false by reflexivity.
    destruct (cursor st + 1 <? 0) eqn:E; [apply Z.ltb_lt in E; lia|].
    rewrite (Z.min_l 0) by lia. rewrite Z.min_r by lia. rewrite Z.sub_0_r, Nat2Z.id.
    cbn [Z.to_nat drop]. apply firstn_all.
  - intros H. rewrite addToHistory_hist. cbn [history]. fold (cursor st). rewrite H.
    change (-1 + 1) with 0. unfold slice, relative_index.
    replace (0 <? 0) with false by reflexivity. rewrite Z.min_l by lia. reflexivity.
Qed.

Lemma X3_append_from_any_state_witness :
  history (hist (addToHistory (fresh_world 0) fileC (editing [fileA; fileB] 5)))
  = [fileA; fileB; fileC]
  /\ history (hist (addToHistory (fresh_world 0) fileC (editing [fileA; fileB] (-1)))) = [fileC].
Proof.
  destruct (X3_append_from_any_state (editing [fileA; fileB] 5) (fresh_world 0) fileC)
    as (_ & _ & _ & Hbeyond & _).
  destruct (X3_append_from_any_state (editing [fileA; fileB] (-1)) (fresh_world 0) fileC)
    as (_ & _ & _ & _ & Hbefore).
  split; [apply Hbeyond; vm_compute; congruence | apply Hbefore; reflexivity].
Defined.

(** ** Session storage *)

(** X4.  [saveSession] followed by [loadSession] returns the history and
    the cursor that were saved, stamped with the time of the save; a second
    save replaces the first, so that saving twice is saving the last; a
    cleared session loads as nothing; a save that fails leaves the record
    that was there. *)
Theorem X4_session_round_trip (w : World) (h h' : list File) (i i' : Z) :
  let w1 := snd (saveSession io_ok h i w) in
  let w2 := snd (saveSession io_ok h' i' w1) in
  loadSession io_ok w1 = Normal (Some (mkSession session_key h i (now w)))
  /\ loadSession io_ok w2 = Normal (Some (mkSession session_key h' i' (now w)))
  /\ db w2 = db (snd (saveSession io_ok h' i' w))
  /\ loadSession io_ok (snd (clearSession io_ok w1)) = Normal None
  /\ (forall e, loadSession io_ok (snd (saveSession (io_fail e) h' i' w1))
                = Normal (Some (mkSession session_key h i (now w))))
  /\ (forall e, fst (saveSession (io_fail e) h i w) = Throw e
                /\ fst (clearSession (io_fail e) w) = Throw e
                /\ loadSession (io_fail e) w = Throw e).
Proof.
  cbn [saveSession clearSession loadSession fst snd with_db db now session_id].
  split; [f_equal; apply lookup_insert_eq|].
  split; [f_equal; apply lookup_insert_eq|].
  split; [apply insert_insert_eq|].
  split; [f_equal; apply lookup_delete_eq|].
  split; [intros e; f_equal; apply lookup_insert_eq|].
  intros e. repeat split.
Qed.

(** ** The editor across events and reloads *)

Section Reachable.

Implicit Types (st : App) (w : World) (ev : AppEvent).

Ltac split_cases :=
  repeat match goal with
    | |- context [match ?x with _ => _ end] => destruct x eqn:?
    end.

Lemma hist_setIsLoading b st : hist (setIsLoading b st) = hist st.
Proof. reflexivity. Qed.

Lemma hist_addToast w m ty st : hist (addToast w m ty st) = hist st.
Proof. reflexivity. Qed.

Lemma with_hist_same st : with_hist (hist st) st = st.
Proof. destruct st. reflexivity. Qed.

(** What a pointer event on the mask canvas leaves alone. *)
Lemma handleMaskDraw_frame e st :
  let st' := fst (handleMaskDraw e st) in
  hist st' = hist st /\ tool st' = tool st
  /\ videoResult (feat st') = videoResult (feat st)
  /\ isMasking (feat st') = isMasking (feat st)
  /\ imgRef (refs st') = imgRef (refs st).
Proof.
  cbv zeta. unfold handleMaskDraw, client_point. split_cases; cbn [fst]; repeat split;
    cbn [feat with_refs isMasking MagicPanel.setMaskDataUrl with_feat]; congruence.
Qed.

(** The two parts of [handleGenAction], run one after the other, are
    [handleGenAction]. *)
Lemma handleGenAction_in_two_parts w action outcome filename st :
  handleGenAction w action outcome filename st
  = match currentImage st with
    | None => (st, w)
    | Some image =>
        (endGenAction (hist st) filename outcome w (setIsLoading true st),
         send (action image) w)
    end.
Proof.
  unfold handleGenAction, endGenAction. destruct (currentImage st); [|reflexivity].
  f_equal. destruct st as [h [a0 p l ts] fe r].
  destruct outcome as [url|e]; [destruct (dataURLtoFile url filename)|]; reflexivity.
Qed.

Lemma delete_last {A} (l : list A) (x : A) : delete (length l) (l ++ [x]) = l.
Proof. induction l as [|y l IH]; [reflexivity|]. cbn. f_equal. exact IH. Qed.

Lemma settle_registered closure filename outcome st w w' :
  calls w' = calls w ->
  settle (length (calls w)) (Generated outcome) st (register (GenCall closure filename) w')
  = (endGenAction closure filename outcome (register (GenCall closure filename) w') st,
     with_calls (calls w) (register (GenCall closure filename) w')).
Proof.
  intros Hc. unfold settle, register. cbn [calls with_calls]. rewrite Hc.
  rewrite lookup_app_r by lia. rewrite Nat.sub_diag. cbn [lookup list_lookup].
  rewrite delete_last. reflexivity.
Qed.

Lemma endGenAction_now closure filename outcome w1 w2 st :
  now w1 = now w2 ->
  endGenAction closure filename outcome w1 st = endGenAction closure filename outcome w2 st.
Proof.
  intros H. unfold endGenAction, addToHistory, handleError, addToast. rewrite H. reflexivity.
Qed.

Lemma beginGenAction_then_settle action filename outcome st w :
  let b := beginGenAction (hist st) action filename st w in
  (calls (snd b) = calls w /\ handleGenAction w action outcome filename st = b)
  \/ (calls (snd b) = calls w ++ [GenCall (hist st) filename]
      /\ handleGenAction w action outcome filename st
         = (fst (settle (length (calls w)) (Generated outcome) (fst b) (snd b)),
            with_calls (calls w) (snd b))).
Proof.
  cbv zeta. rewrite handleGenAction_in_two_parts. unfold beginGenAction.
  change (index (history (hist st)) (historyIndex (hist st))) with (currentImage st).
  destruct (currentImage st) as [image|]; [right | left; split; reflexivity].
  cbn [fst snd]. split; [reflexivity|].
  rewrite (settle_registered (hist st) filename outcome _ w (send (action image) w) eq_refl).
  reflexivity.
Qed.

(** A callback that is called and whose call settles before anything else
    happens is [run_action]. *)
Lemma run_action_in_two_parts a w outcome st :
  let b := begin_action a st w in
  (calls (snd b) = calls w /\ run_action a w outcome st = b)
  \/ (exists filename,
        calls (snd b) = calls w ++ [GenCall (hist st) filename]
        /\ run_action a w outcome st
           = (fst (settle (length (calls w)) (Generated outcome) (fst b) (snd b)),
              with_calls (calls w) (snd b))).
Proof.
  cbv zeta.
  destruct a; cbn [run_action begin_action];
    unfold handleRetouch, beginRetouch, handleMagicFill, beginMagicFill;
    repeat match goal with
      | |- context [match ?x with _ => _ end] => destruct x eqn:?
      end;
    try (left; split; reflexivity).
  all: match goal with
       | |- context [beginGenAction (hist ?s) ?action ?filename ?s ?w0] =>
           destruct (beginGenAction_then_settle action filename outcome s w0) as [H|H];
             [left; exact H | right; exists filename; exact H]
       end.
Qed.

(** The same for [handleAnalysis]. *)
Lemma handleAnalysis_in_two_parts w outcome st :
  handleAnalysis w outcome st
  = match currentImage st with
    | None => st
    | Some _ => endAnalysis outcome w (setIsLoading true st)
    end.
Proof.
  unfold handleAnalysis, endAnalysis. destruct (currentImage st); [|reflexivity].
  destruct st as [h [a0 p l ts] fe r]. destruct outcome as [[text chunks]|e]; reflexivity.
Qed.








Lemma beginGenAction_frame closure action filename st w :
  let b := beginGenAction closure action filename st w in
  hist (fst b) = hist st /\ feat (fst b) = feat st /\ refs (fst b) = refs st
  /\ db (snd b) = db w /\ idb (snd b) = idb w /\ console (snd b) = console w
  /\ sessions (snd b) = sessions w.
Proof.
  cbv zeta. unfold beginGenAction. destruct (index _ _); repeat split.
Qed.

Lemma begin_action_frame a st w :
  let b := begin_action a st w in
  hist (fst b) = hist st /\ feat (fst b) = feat st /\ refs (fst b) = refs st
  /\ db (snd b) = db w /\ idb (snd b) = idb w /\ console (snd b) = console w
  /\ sessions (snd b) = sessions w.
Proof.
  cbv zeta. destruct a; cbn [begin_action]; unfold beginRetouch, beginMagicFill;
    split_cases; try apply beginGenAction_frame; repeat split.
Qed.

Lemma toolCall_frame k c st w :
  let b := toolCall k c st w in
  hist (fst b) = hist st /\ feat (fst b) = feat st /\ refs (fst b) = refs st
  /\ db (snd b) = db w /\ idb (snd b) = idb w /\ console (snd b) = console w
  /\ sessions (snd b) = sessions w.
Proof.
  cbv zeta. unfold toolCall. split_cases; try apply beginGenAction_frame; repeat split.
Qed.









Lemma app_run_invariant (P : App * World -> Prop) (Q : AppEvent * Io -> Prop) :
  (forall e sw, Q e -> P sw -> P (app_step e sw)) ->
  forall evs sw, Forall Q evs -> P sw -> P (app_run evs sw).
Proof.
  intros Hstep evs. induction evs as [|e evs IH]; intros sw HQ HP; [exact HP|].
  apply Forall_cons_1 in HQ as [He HQ]. cbn [app_run foldl].
  apply IH; [exact HQ|]. apply Hstep; assumption.
Qed.




Lemma outstanding_snoc w job :
  foldl after_job (record_of w) (idb w ++ [job]) = after_job (outstanding w) job.
Proof. unfold outstanding. rewrite foldl_app. reflexivity. Qed.










(** No event sets [videoResult]. *)
Lemma app_handle_videoResult ev st w :
  videoResult (feat st) = None -> videoResult (feat (fst (app_handle ev (st, w)))) = None.
Proof.
  intros H.
  destruct ev as [op|a|k c|k s|rendered| |outcome| |e| | | | | | | | | | | | | | |io|].
  - destruct op; cbn [app_handle store_step fst]; unfold handleUndo, handleRedo;
      split_cases; first [exact H | reflexivity].
  - cbn [app_handle]. rewrite (proj1 (proj2 (begin_action_frame a st w))). exact H.
  - cbn [app_handle]. rewrite (proj1 (proj2 (toolCall_frame k c st w))). exact H.
  - cbn [app_handle]. unfold settle, endGenAction, endAnalysis, handleError.
    split_cases; cbn [fst]; first [exact H | reflexivity].
  - cbn [app_handle fst]. unfold handleCropApply. split_cases; cbn [fst];
      first [exact H | reflexivity].
  - cbn [app_handle]. unfold beginAnalysis. split_cases; exact H.
  - cbn [app_handle]. unfold onAnalyzeVideo. split_cases; exact H.
  - cbn [app_handle fst]. unfold handleImageClick. split_cases; exact H.
  - cbn [app_handle fst]. rewrite <- H. apply (handleMaskDraw_frame e st).
  - exact H.
  - cbn [app_handle fst]. unfold MagicPanel.onClearMask. exact H.
  - exact H.
  - exact H.
  - exact H.
  - exact H.
  - exact H.
  - exact H.
  - exact H.
  - exact H.
  - exact H.
  - cbn [app_handle fst]. unfold syncCanvas. split_cases; exact H.
  - exact H.
  - exact H.
  - reflexivity.
  - cbn [app_handle]. unfold idb_next, loadEffect, handleClear.
    split_cases; cbn [fst]; first [exact H | reflexivity].
Qed.

(** No event leaves a stroke in progress without its last point. *)
Lemma app_handle_anchor ev st w :
  stroke_has_anchor st -> stroke_has_anchor (fst (app_handle ev (st, w))).
Proof.
  unfold stroke_has_anchor. intros H.
  destruct ev as [op|a|k c|k s|rendered| |outcome| |e| | | | | | | | | | | | | | |io|].
  - destruct op; cbn [app_handle store_step fst]; unfold handleUndo, handleRedo;
      split_cases; exact H.
  - cbn [app_handle]. rewrite (proj1 (proj2 (proj2 (begin_action_frame a st w)))). exact H.
  - cbn [app_handle]. rewrite (proj1 (proj2 (proj2 (toolCall_frame k c st w)))). exact H.
  - cbn [app_handle]. unfold settle, endGenAction, endAnalysis, handleError.
    split_cases; cbn [fst]; exact H.
  - cbn [app_handle fst]. unfold handleCropApply. split_cases; cbn [fst]; exact H.
  - cbn [app_handle]. unfold beginAnalysis. split_cases; exact H.
  - cbn [app_handle]. unfold onAnalyzeVideo. split_cases; exact H.
  - cbn [app_handle fst]. unfold handleImageClick. split_cases; exact H.
  - cbn [app_handle fst]. unfold handleMaskDraw, client_point.
    split_cases; cbn [fst]; cbn; intros Hd;
      first [ exact (H Hd) | discriminate | eexists; reflexivity | idtac ].
    all: try solve [ match goal with
                     | Hx : isDrawingRef _ = true |- _ => exact (H Hx)
                     end ].
    all: congruence.
  - exact H.
  - exact H.
  - exact H.
  - exact H.
  - exact H.
  - exact H.
  - exact H.
  - exact H.
  - exact H.
  - exact H.
  - exact H.
  - cbn [app_handle fst]. unfold syncCanvas. split_cases; exact H.
  - exact H.
  - exact H.
  - cbn. discriminate.
  - cbn [app_handle]. unfold idb_next, loadEffect, handleClear.
    split_cases; cbn [fst]; exact H.
Qed.

End Reachable.


(** A result that arrives late.  With the history [a; b] and the cursor on
    [b] a filter is asked for; the user undoes while the call is in flight;
    the result is appended to the history as it was when the call was made,
    after [b], and not to the one on screen. *)
Example scenario_late_result :
  let evs := [(Gen (ApplyFilter "sepia"), io_ok); (Store Undo, io_ok);
              (Settle 0 (Generated (Normal "data:image/png;base64,SGk=")), io_ok)] in
  hist (fst (app_run evs (editing [fileA; fileB] 1, fresh_world 0)))
  = mkHistory [fileA; fileB; mkFile ["H"; "i"]%char "filt.png" "image/png"] 2.
Proof. reflexivity. Qed.

(** Two commands to one session of the voice assistant, mounted over the
    history [a]: both results are appended to [a], so the second replaces
    the first. *)
Example scenario_two_tool_calls :
  let url := "data:image/png;base64,SGk=" in
  let evs := [(MountAssistant, io_ok);
              (ToolCall 0 (applyFilter "retro"), io_ok); (Settle 0 (Generated (Normal url)), io_ok);
              (ToolCall 0 removeBackground, io_ok); (Settle 0 (Generated (Normal url)), io_ok)] in
  hist (fst (app_run evs (editing [fileA] 0, fresh_world 0)))
  = mkHistory [fileA; mkFile ["H"; "i"]%char "rm-bg.png" "image/png"] 1.
Proof. reflexivity. Qed.

(** A save is in the store only when its request has completed. *)
Example scenario_save_in_flight :
  let after_append := app_run [(Store (Append fileA), io_ok)] (initial, fresh_world 0) in
  db (snd after_append) !! session_key = None
  /\ idb (snd after_append) = [mkJob (PutSession [fileA] 0) io_ok true]
  /\ db (snd (app_run [(IdbNext, io_ok)] after_append)) !! session_key
     = Some (mkSession session_key [fileA] 0 0).
Proof. repeat split. Qed.




(** X11.  No event ever stores a video: [videoResult] is null in every
    state the editor can reach, so the video player of the workspace is
    never shown. *)
Theorem X11_videoResult_always_null (evs : list (AppEvent * Io)) (w : World) :
  videoResult (feat (fst (app_run evs (initial, w)))) = None.
Proof.
  apply (app_run_invariant (fun sw => videoResult (feat (fst sw)) = None) (fun _ => True)).
  - intros [ev save] [st w0] _ H. unfold app_step.
    pose proof (app_handle_videoResult ev st w0 H) as H'.
    destruct (app_handle ev (st, w0)) as [st' w']. destruct (_ || _); exact H'.
  - apply Forall_forall. intros; exact I.
  - reflexivity.
Qed.

(** X12.  In every state the editor can reach, a stroke in progress has
    its last point recorded; so a pointer event on the mask canvas never
    fails on the missing point in [lastPositionRef.current!.x]. *)
Theorem X12_stroke_always_anchored (evs : list (AppEvent * Io)) (w : World) (e : PointerEvent) :
  stroke_has_anchor (fst (app_run evs (initial, w)))
  /\ snd (handleMaskDraw e (fst (app_run evs (initial, w))))
     <> Some (ErrorObj "Cannot read properties of null (reading 'x')").
Proof.
  assert (H : stroke_has_anchor (fst (app_run evs (initial, w)))).
  { apply (app_run_invariant (fun sw => stroke_has_anchor (fst sw)) (fun _ => True)).
    - intros [ev save] [st w0] _ H. unfold app_step.
      pose proof (app_handle_anchor ev st w0 H) as H'.
      destruct (app_handle ev (st, w0)) as [st' w']. destruct (_ || _); exact H'.
    - apply Forall_forall. intros; exact I.
    - intros Hd. discriminate. }
  split; [exact H|].
  generalize dependent (fst (app_run evs (initial, w))). intros st H.
  unfold stroke_has_anchor in H. unfold handleMaskDraw, client_point.
  repeat match goal with
    | |- context [match ?x with _ => _ end] => destruct x eqn:?
    end; cbn [snd]; try discriminate.
  all: try solve [ destruct (H eq_refl) as [? Hz]; discriminate ].
  match goal with
  | Hc : match touches e with _ => _ end = Throw _ |- _ =>
      destruct (touches e) as [[|]|]; try discriminate; injection Hc as <-; discriminate
  end.
Qed.


(** ** From a response to a snapshot *)

Section DataUrl.

Implicit Types (s a b : string) (c : ascii).

Lemma comma_free_cons c s :
  comma_free (String c s) <-> c <> ","%char /\ comma_free s.
Proof. unfold comma_free. cbn. apply (Forall_cons (fun x => x <> ","%char)). Qed.

Lemma split_comma_plain s : comma_free s -> split_comma s = [s].
Proof.
  induction s as [|c s IH]; intros H; [reflexivity|].
  apply comma_free_cons in H as [Hc Hs]. cbn [split_comma].
  apply Ascii.eqb_neq in Hc. rewrite Hc, (IH Hs). reflexivity.
Qed.

(** A prefix without comma stays in the first piece. *)
Lemma split_comma_prefix a b :
  comma_free a ->
  split_comma (a +:+ b)
  = match split_comma b with
    | piece :: pieces => (a +:+ piece) :: pieces
    | [] => [a]
    end.
Proof.
  induction a as [|c a IH]; intros H.
  - change ("" +:+ b) with b. destruct (split_comma b) eqn:E; [|reflexivity].
    destruct b; cbn in E; [discriminate|].
    destruct (Ascii.eqb _ _); [discriminate|]. destruct (split_comma b); discriminate.
  - apply comma_free_cons in H as [Hc Ha].
    change (String c a +:+ b) with (String c (a +:+ b)). cbn [split_comma].
    apply Ascii.eqb_neq in Hc. rewrite Hc, (IH Ha).
    destruct (split_comma b); reflexivity.
Qed.

Lemma lazy_until_semicolon_plain a b :
  Forall (fun c => c <> ","%char /\ c <> ";"%char /\ is_line_terminator c = false)
         (list_ascii_of_string a) ->
  lazy_until_semicolon (a +:+ String ";" b) = Some a.
Proof.
  induction a as [|c a IH]; intros H; [reflexivity|].
  cbn in H. apply Forall_cons_1 in H as [(_ & Hs & Hl) Ha].
  change (String c a +:+ String ";" b) with (String c (a +:+ String ";" b)).
  cbn [lazy_until_semicolon].
  apply Ascii.eqb_neq in Hs. rewrite Hs, Hl, (IH Ha). reflexivity.
Qed.

Lemma plain_mime_comma_free a : plain_mime a -> comma_free a.
Proof.
  intros [_ H]. unfold comma_free. eapply Forall_impl; [exact H|]. cbn. tauto.
Qed.

(** The data URL [handleApiResponse] builds is read back by
    [dataURLtoFile] with the same MIME type, which the [File] constructor
    then normalises, and the decoded data. *)
Lemma dataURLtoFile_of_inline mime data name :
  plain_mime mime -> comma_free data ->
  dataURLtoFile ("data:" +:+ mime +:+ ";base64," +:+ data) name
  = match atob data with
    | Normal bits => Normal (new_File bits name mime)
    | Throw e => Throw e
    end.
Proof.
  intros Hm Hd. pose proof (plain_mime_comma_free _ Hm) as Hc.
  unfold dataURLtoFile.
  assert (Hsplit : split_comma ("data:" +:+ mime +:+ ";base64," +:+ data)
                   = [("data:" +:+ mime +:+ ";base64"); data]).
  { change ("data:" +:+ mime +:+ ";base64," +:+ data)
      with (String "d" (String "a" (String "t" (String "a" (String ":"
              (mime +:+ ";base64," +:+ data)))))).
    cbn [split_comma Ascii.eqb Bool.eqb].
    rewrite (split_comma_prefix mime _ Hc).
    change (";base64," +:+ data)
      with (String ";" (String "b" (String "a" (String "s" (String "e" (String "6"
              (String "4" (String "," data)))))))).
    cbn [split_comma Ascii.eqb Bool.eqb].
    rewrite (split_comma_plain data Hd). reflexivity. }
  rewrite Hsplit.
  assert (Hmime : match_mime ("data:" +:+ mime +:+ ";base64") = Some mime).
  { change ("data:" +:+ mime +:+ ";base64")
      with (String "d" (String "a" (String "t" (String "a" (String ":"
              (mime +:+ String ";" "base64")))))).
    cbn [match_mime Ascii.eqb Bool.eqb].
    rewrite (lazy_until_semicolon_plain mime "base64" (proj2 Hm)). reflexivity. }
  rewrite Hmime. destruct Hm as [Hne _]. destruct mime; [contradiction|]. reflexivity.
Qed.

Lemma blob_type_lower_case s : lower_case_type s -> blob_type s = s.
Proof.
  intros H. unfold blob_type, lower_case_type in *.
  assert (Hp : forallb is_printable (list_ascii_of_string s) = true).
  { apply forallb_forall. intros c Hc. apply List.Forall_forall with (x := c) in H; tauto. }
  rewrite Hp. clear Hp.
  induction s as [|c s IH]; [reflexivity|].
  cbn in H. apply Forall_cons_1 in H as [[_ Hc] Hs].
  cbn. rewrite Hc. f_equal. apply IH, Hs.
Qed.

Lemma dataURLtoFile_name url name file :
  dataURLtoFile url name = Normal file -> file_name file = name.
Proof.
  unfold dataURLtoFile.
  repeat match goal with
    | |- context [match ?x with _ => _ end] => destruct x
    end; try discriminate.
  intros [= <-]. reflexivity.
Qed.

Lemma index_Some_range {A} (l : list A) (i : Z) (x : A) :
  index l i = Some x -> 0 <= i <= Z.of_nat (length l) - 1.
Proof.
  unfold index. destruct (i <? 0) eqn:E; [discriminate|]. apply Z.ltb_ge in E.
  intros H. apply lookup_lt_Some in H. lia.
Qed.

Lemma addToHistory_take (w : World) (f : File) (st : App) :
  0 <= cursor st <= length_of st - 1 ->
  history (hist (addToHistory w f st))
  = take (Z.to_nat (cursor st + 1)) (history (hist st)) ++ [f].
Proof.
  intros Hs. rewrite addToHistory_hist. cbn [history].
  rewrite slice_prefix; [reflexivity|]. unfold length_of in Hs. lia.
Qed.

Lemma addToHistory_currentImage (w : World) (f : File) (st : App) :
  currentImage (addToHistory w f st) = Some f.
Proof.
  unfold currentImage. rewrite addToHistory_hist. cbn [history historyIndex].
  generalize (slice (history (hist st)) 0 (cursor st + 1)). intros l.
  unfold index. rewrite length_app. cbn [length].
  destruct (_ <? 0) eqn:E; [apply Z.ltb_lt in E; lia|].
  replace (Z.to_nat (Z.of_nat (length l + 1) - 1)) with (length l + 0)%nat by lia.
  rewrite lookup_app_r by lia. replace (length l + 0 - length l)%nat with 0%nat by lia.
  reflexivity.
Qed.

End DataUrl.

(** X7.  When the promise of an action resolves with a data URL that
    [dataURLtoFile] accepts, the file made of it, named as the action asks,
    becomes the current image: it is appended after the snapshots up to the
    cursor, the original image stays, the request went out once, the busy
    flag is off and the hotspot, crop and mask of the previous image are
    cleared. *)
Theorem X7_resolved_action_appends (w : World) (action : File -> Request)
    (url filename : string) (file image : File) (st : App) :
  currentImage st = Some image ->
  dataURLtoFile url filename = Normal file ->
  let st' := fst (handleGenAction w action (Normal url) filename st) in
  let w' := snd (handleGenAction w action (Normal url) filename st) in
  currentImage st' = Some file
  /\ file_name file = filename
  /\ history (hist st') = take (Z.to_nat (cursor st + 1)) (history (hist st)) ++ [file]
  /\ originalImage st' = originalImage st
  /\ requests w' = requests w ++ [action image]
  /\ isLoading (tool st') = false
  /\ editHotspot (feat st') = None /\ completedCrop (feat st') = None
  /\ isMasking (feat st') = false /\ maskDataUrl (feat st') = None.
Proof.
  intros Hc Hf st' w'. subst st' w'. unfold handleGenAction. rewrite Hc, Hf. cbn [fst snd].
  pose proof (index_Some_range _ _ _ Hc) as Hr. fold (cursor st) in Hr.
  assert (Hin : 0 <= cursor st <= length_of st - 1) by exact Hr.
  pose proof (addToHistory_take w file st Hin) as Hh.
  pose proof (addToHistory_currentImage w file st) as Hcur.
  split; [exact Hcur|]. split; [exact (dataURLtoFile_name _ _ _ Hf)|].
  split; [exact Hh|]. split; [|repeat split].
  change (originalImage (addToHistory w file st) = originalImage st).
  unfold originalImage. rewrite Hh.
  destruct (history (hist st)) as [|a l] eqn:El; [cbn in Hr; lia|].
  destruct (Z.to_nat (cursor st + 1)) eqn:En; [lia|]. reflexivity.
Qed.

Lemma X7_resolved_action_appends_witness :
  let st := editing [fileA; fileB] 0 in
  let r := handleGenAction (fresh_world 0) (fun image => generateRemovedBackgroundImage image)
             (Normal "data:image/png;base64,SGk=") "rm-bg.png" st in
  history (hist (fst r)) = [fileA; mkFile ["H"; "i"]%char "rm-bg.png" "image/png"]
  /\ requests (snd r) = [generateRemovedBackgroundImage fileA].
Proof.
  intros st r.
  destruct (X7_resolved_action_appends (fresh_world 0)
              (fun image => generateRemovedBackgroundImage image)
              "data:image/png;base64,SGk=" "rm-bg.png"
              (mkFile ["H"; "i"]%char "rm-bg.png" "image/png") fileA st eq_refl eq_refl)
    as (_ & _ & Hh & _ & Hr & _).
  split; [exact Hh | exact Hr].
Defined.

(** X8.  Without a current image no generation callback calls the remote
    service or changes the history or the mask; apart from the two that
    first check their own input (retouch and fill), they do nothing at all.
    In particular "Generate Image" on an empty editor does nothing. *)
Theorem X8_no_image_no_generation (a : GenAction) (w : World) (outcome : Completion string)
    (st : App) :
  currentImage st = None ->
  requests (snd (run_action a w outcome st)) = requests w
  /\ hist (fst (run_action a w outcome st)) = hist st
  /\ feat (fst (run_action a w outcome st)) = feat st
  /\ match a with
     | Retouch | MagicFill _ => snd (run_action a w outcome st) = w
     | _ => run_action a w outcome st = (st, w)
     end.
Proof.
  intros Hc.
  destruct a; cbn [run_action]; unfold handleRetouch, handleMagicFill, handleGenAction;
    rewrite ?Hc;
    repeat match goal with
      | |- context [match ?x with _ => _ end] => destruct x
      end; repeat split.
Qed.

Lemma X8_no_image_no_generation_witness :
  run_action (Generate "a red kite" ar_1_1 size_1K) (fresh_world 0)
             (Normal "data:image/png;base64,SGk=") (setActiveTool generate initial)
  = (setActiveTool generate initial, fresh_world 0).
Proof.
  destruct (X8_no_image_no_generation (Generate "a red kite" ar_1_1 size_1K) (fresh_world 0)
              (Normal "data:image/png;base64,SGk=") (setActiveTool generate initial) eq_refl)
    as (_ & _ & _ & H).
  exact H.
Defined.

(** X9.  A resolved action whose result contains no comma, such as the
    address of a generated video with its key appended, is not a data URL:
    nothing is appended, the history and the feature state are as before and
    the user gets the error toast "Invalid data URL". *)
Theorem X9_plain_address_is_rejected (w : World) (action : File -> Request)
    (url filename : string) (image : File) (st : App) :
  comma_free url -> currentImage st = Some image ->
  handleGenAction w action (Normal url) filename st
  = (setIsLoading false (addToast w "Invalid data URL" toast_error st), send (action image) w).
Proof.
  intros Hu Hc. unfold handleGenAction, dataURLtoFile. rewrite Hc, (split_comma_plain url Hu).
  reflexivity.
Qed.

Lemma X9_plain_address_is_rejected_witness :
  let st := editing [fileA] 0 in
  let r := run_action (GenerateVideo "waves" video_16_9 true) (fresh_world 0)
             (Normal "https://videos.example/v1?alt=media&key=KEY") st in
  hist (fst r) = hist st
  /\ toasts (tool (fst r)) = [mkToast "0" "Invalid data URL" toast_error].
Proof.
  intros st r. subst r. cbn [run_action].
  rewrite (X9_plain_address_is_rejected (fresh_world 0) _
             "https://videos.example/v1?alt=media&key=KEY" "video.mp4" fileA st).
  - split; reflexivity.
  - unfold comma_free. cbn. repeat constructor; discriminate.
  - reflexivity.
Defined.

(** X10.  [handleApiResponse] yields a data URL only for a response that
    is not blocked and has a part with inline data, and then that of the
    first such part.  When its MIME type is plain and its data has no comma,
    [dataURLtoFile] turns that URL into the file the [File] constructor makes
    of the decoded data and that type, and fails only if [atob] does.  The
    constructor lower-cases the type and empties it when it has a character
    that is not printable ASCII; a type written in lower case, such as
    image/png, is kept as it is. *)
Theorem X10_response_to_file (r : Gemini.Response) (context name : string) :
  (forall url, Gemini.handleApiResponse r context = Normal url ->
     truthy (Gemini.or_string (Gemini.blockReason r) "") = false
     /\ exists ps mime data,
          Gemini.parts r = Some ps /\ Gemini.first_inline ps = Some (mime, data)
          /\ url = "data:" +:+ mime +:+ ";base64," +:+ data)
  /\ (forall ps mime data,
        truthy (Gemini.or_string (Gemini.blockReason r) "") = false ->
        Gemini.parts r = Some ps -> Gemini.first_inline ps = Some (mime, data) ->
        plain_mime mime -> comma_free data ->
        exists url, Gemini.handleApiResponse r context = Normal url
          /\ dataURLtoFile url name
             = match atob data with
               | Normal bits => Normal (mkFile bits name (blob_type mime))
               | Throw e => Throw e
               end
          /\ (lower_case_type mime -> blob_type mime = mime)
          /\ (forallb is_printable (list_ascii_of_string mime) = false -> blob_type mime = "")).
Proof.
  split.
  - intros url. unfold Gemini.handleApiResponse.
    destruct (truthy _) eqn:Hb; [discriminate|].
    destruct (Gemini.parts r) as [ps|]; [|discriminate].
    destruct (Gemini.first_inline ps) as [[mime data]|] eqn:Hf; [|discriminate].
    intros [= <-]. split; [reflexivity|]. exists ps, mime, data. repeat split. exact Hf.
  - intros ps mime data Hb Hp Hf Hm Hd. unfold Gemini.handleApiResponse.
    rewrite Hb, Hp, Hf. eexists. split; [reflexivity|].
    split; [apply dataURLtoFile_of_inline; assumption|].
    split; [apply blob_type_lower_case|].
    intros Hn. unfold blob_type. rewrite Hn. reflexivity.
Qed.

Lemma X10_response_to_file_witness :
  let r := Gemini.mkResponse None
             (Some [Gemini.mkPart (Some "Here you are.") None;
                    Gemini.mkPart None (Some ("IMAGE/PNG", "SGk="))])
             (Some "Here you are.") in
  exists url, Gemini.handleApiResponse r "edit" = Normal url
    /\ dataURLtoFile url "e.png" = Normal (mkFile ["H"; "i"]%char "e.png" "image/png").
Proof.
  intros r.
  destruct (X10_response_to_file r "edit" "e.png") as [_ H].
  destruct (H _ "IMAGE/PNG" "SGk=" eq_refl eq_refl eq_refl) as (url & Hu & Hf & _).
  - split; [discriminate|]. cbn. repeat constructor; discriminate.
  - unfold comma_free. cbn. repeat constructor; discriminate.
  - exists url. split; [exact Hu | exact Hf].
Defined.

(** ** Strokes on the mask canvas *)

Section Strokes.

Implicit Types (st : App) (e : PointerEvent) (canvas : Element).

Lemma mask_events_cons e es st :
  mask_events (e :: es) st = mask_events es (fst (handleMaskDraw e st)).
Proof. reflexivity. Qed.

Lemma mask_throws_quiet e es st :
  snd (handleMaskDraw e st) = None ->
  mask_throws (e :: es) st = mask_throws es (fst (handleMaskDraw e st)).
Proof. cbn [mask_throws]. destruct (handleMaskDraw e st) as [s o]. cbn. intros ->. reflexivity. Qed.

Lemma brush_positive (b : Q) :
  (0 < b)%Q -> Qle_bool b 0 = false /\ Qle_bool 0 (b / 2) = true.
Proof.
  intros H. split.
  - destruct (Qle_bool b 0) eqn:E; [|reflexivity]. apply Qle_bool_iff in E. lra.
  - apply Qle_bool_iff. apply Qle_shift_div_l; lra.
Qed.

Lemma press_starts_stroke st canvas (p : Point) :
  maskCanvasRef (refs st) = Some canvas -> context2d canvas = true ->
  isMasking (feat st) = true -> (0 < brushSize (feat st))%Q ->
  snd (handleMaskDraw (pointer_at mousedown p) st) = None
  /\ feat (fst (handleMaskDraw (pointer_at mousedown p) st)) = feat st
  /\ stroking (fst (handleMaskDraw (pointer_at mousedown p) st))
       (with_bitmap (draw (FillArc (local_point canvas p) (brushSize (feat st) / 2))
                          (bitmap canvas)) canvas)
       (local_point canvas p).
Proof.
  intros Hc Hx Hm Hb. destruct (brush_positive _ Hb) as [_ Hr].
  unfold handleMaskDraw, client_point. rewrite Hc, Hm. cbn [touches pointer_at event_type].
  rewrite Hx. cbn [px py clientX clientY]. rewrite Hr. cbn [fst snd].
  repeat split; assumption.
Qed.

Lemma move_extends_stroke st canvas (last q : Point) :
  stroking st canvas last ->
  snd (handleMaskDraw (pointer_at mousemove q) st) = None
  /\ feat (fst (handleMaskDraw (pointer_at mousemove q) st)) = feat st
  /\ stroking (fst (handleMaskDraw (pointer_at mousemove q) st))
       (mkElement (rect_left canvas) (rect_top canvas) true (brushSize (feat st))
          (draw (StrokeLine last (local_point canvas q) (brushSize (feat st))) (bitmap canvas)))
       (local_point canvas q).
Proof.
  intros (Hc & Hx & Hm & Hd & Hl & Hb). destruct (brush_positive _ Hb) as [Hw _].
  unfold handleMaskDraw, client_point. rewrite Hc, Hm. cbn [touches pointer_at event_type].
  rewrite Hx, Hd, Hl. unfold set_lineWidth. rewrite Hw. cbn [fst snd].
  unfold with_bitmap. cbn [rect_left rect_top context2d lineWidth bitmap px py clientX clientY].
  rewrite Hx. repeat split; assumption.
Qed.

(** A run of moves draws the polyline through them. *)
Lemma moves_draw_polyline (qs : list Point) : forall st canvas (last : Point),
  stroking st canvas last ->
  let st' := mask_events (map (pointer_at mousemove) qs) st in
  mask_throws (map (pointer_at mousemove) qs) st = []
  /\ feat st' = feat st
  /\ exists canvas',
       stroking st' canvas' (List.last (map (local_point canvas) qs) last)
       /\ rect_left canvas' = rect_left canvas /\ rect_top canvas' = rect_top canvas
       /\ width (bitmap canvas') = width (bitmap canvas)
       /\ height (bitmap canvas') = height (bitmap canvas)
       /\ ops (bitmap canvas')
          = ops (bitmap canvas)
            ++ polyline last (map (local_point canvas) qs) (brushSize (feat st)).
Proof.
  induction qs as [|q qs IH]; intros st canvas last Hs.
  - cbn. split; [reflexivity|]. split; [reflexivity|]. exists canvas.
    rewrite app_nil_r. split; [exact Hs | repeat split].
  - destruct (move_extends_stroke st canvas last q Hs) as (Hq & Hf & Hs1).
    cbn [map]. rewrite mask_events_cons, (mask_throws_quiet _ _ _ Hq).
    set (st1 := fst (handleMaskDraw (pointer_at mousemove q) st)) in *.
    destruct (IH st1 _ _ Hs1) as (Ht & Hf' & canvas' & Hs' & Hl & Htop & Hw & Hh & Hops).
    split; [exact Ht|]. split; [rewrite Hf'; exact Hf|].
    exists canvas'. cbn [rect_left rect_top bitmap draw width height ops] in Hl, Htop, Hw, Hh, Hops.
    assert (Hlast : forall (l : list Point) (a b : Point), List.last (a :: l) b = List.last l a).
    { induction l as [|x l IHl]; intros a b; [reflexivity|].
      change (List.last (a :: x :: l) b) with (List.last (x :: l) b).
      rewrite (IHl x b), (IHl x a). reflexivity. }
    cbn [map]. rewrite Hlast.
    split; [exact Hs'|].
    repeat split; try assumption.
    rewrite Hops, Hf. cbn [polyline]. rewrite <- app_assoc. reflexivity.
Qed.

End Strokes.

Section MaskSequences.

Implicit Types (st : App) (e : PointerEvent).

Lemma mask_events_app es1 es2 st :
  mask_events (es1 ++ es2) st = mask_events es2 (mask_events es1 st).
Proof. unfold mask_events. apply foldl_app. Qed.

Lemma mask_throws_app es1 : forall es2 st,
  mask_throws (es1 ++ es2) st = mask_throws es1 st ++ mask_throws es2 (mask_events es1 st).
Proof.
  induction es1 as [|e es1 IH]; intros es2 st; [reflexivity|].
  cbn [app mask_throws]. rewrite mask_events_cons.
  destruct (handleMaskDraw e st) as [s [err|]]; cbn [fst]; rewrite IH; reflexivity.
Qed.

(** Painting a command never lowers the alpha of a pixel. *)
Lemma alpha_at_draw_le coverage op r pixel :
  fraction coverage -> is_paint op = true ->
  (alpha_at coverage r pixel <= alpha_at coverage (draw op r) pixel)%Q.
Proof.
  intros Hf Hp. destruct (in_bounds r pixel) eqn:Hb.
  - rewrite (alpha_at_draw coverage op r pixel Hb).
    pose proof (alpha_at_stored coverage Hf r pixel) as Ha.
    pose proof (Hf op pixel) as Hc.
    destruct op; try discriminate; cbn [apply_op]; apply source_over_grows;
      try exact Ha; unfold paint_alpha; clear - Hc; destruct Hc; split; lra.
  - unfold alpha_at, draw, in_bounds in *. cbn [width height]. rewrite Hb. apply Qle_refl.
Qed.

(** What a pointer event does to the canvas: nothing, or a change of the
    line width, or one more painted command. *)
Lemma handleMaskDraw_canvas e st :
  (maskCanvasRef (refs st) = None /\ maskCanvasRef (refs (fst (handleMaskDraw e st))) = None)
  \/ exists c c',
       maskCanvasRef (refs st) = Some c
       /\ maskCanvasRef (refs (fst (handleMaskDraw e st))) = Some c'
       /\ (bitmap c' = bitmap c
           \/ exists op, is_paint op = true /\ bitmap c' = draw op (bitmap c)).
Proof.
  unfold handleMaskDraw. destruct (maskCanvasRef (refs st)) as [c|] eqn:Hc;
    [|left; split; [reflexivity | exact Hc]].
  right. exists c. unfold client_point, set_lineWidth.
  repeat match goal with
    | |- context [match ?x with _ => _ end] => destruct x eqn:?
    end; cbn [fst refs with_refs maskCanvasRef MagicPanel.setMaskDataUrl with_feat];
    eexists; (split; [reflexivity|]); (split; [first [reflexivity | eassumption]|]);
    cbn [with_bitmap bitmap];
    first [ left; reflexivity | right; eexists; split; [|reflexivity]; reflexivity ].
Qed.

Lemma handleMaskDraw_alpha coverage e st pixel :
  fraction coverage ->
  (canvas_alpha coverage st pixel <= canvas_alpha coverage (fst (handleMaskDraw e st)) pixel)%Q.
Proof.
  intros Hf. unfold canvas_alpha.
  destruct (handleMaskDraw_canvas e st) as [[-> ->]|(c & c' & -> & -> & [->|(op & Hp & ->)])].
  - apply Qle_refl.
  - apply Qle_refl.
  - apply alpha_at_draw_le; assumption.
Qed.

End MaskSequences.

(** X13.  A stroke with the mouse (press, any number of moves, release)
    while masking, with a positive brush, throws nothing and exports a mask
    that is the bitmap before the stroke with a disc of the brush's radius at
    the press and a line of the brush's width from each point to the next,
    in that order, all relative to the canvas. *)
Theorem X13_stroke_is_exported (st : App) (canvas : Element) (p release : Point)
    (qs : list Point) :
  maskCanvasRef (refs st) = Some canvas -> context2d canvas = true ->
  isMasking (feat st) = true -> (0 < brushSize (feat st))%Q ->
  let es := pointer_at mousedown p :: map (pointer_at mousemove) qs
            ++ [pointer_at mouseup release] in
  let painted :=
    mkRaster (width (bitmap canvas)) (height (bitmap canvas))
      (ops (bitmap canvas)
       ++ FillArc (local_point canvas p) (brushSize (feat st) / 2)
          :: polyline (local_point canvas p) (map (local_point canvas) qs)
                      (brushSize (feat st))) in
  mask_throws es st = []
  /\ maskDataUrl (feat (mask_events es st)) = Some painted
  /\ isDrawingRef (refs (mask_events es st)) = false
  /\ exists canvas', maskCanvasRef (refs (mask_events es st)) = Some canvas'
                     /\ bitmap canvas' = painted.
Proof.
  intros Hc Hx Hm Hb es painted.
  destruct (press_starts_stroke st canvas p Hc Hx Hm Hb) as (Hq & Hf & Hs).
  set (st1 := fst (handleMaskDraw (pointer_at mousedown p) st)) in *.
  destruct (moves_draw_polyline qs st1 _ _ Hs)
    as (Ht & Hf2 & canvas' & Hs2 & Hl & Htop & Hw & Hh & Hops).
  set (st2 := mask_events (map (pointer_at mousemove) qs) st1) in *.
  destruct Hs2 as (Hc2 & Hx2 & Hm2 & _).
  destruct (handleMaskDraw_mouse_release (pointer_at mouseup release) st2 canvas'
              Hc2 Hx2 Hm2 eq_refl (or_introl eq_refl)) as (Hq3 & Hmask & Hd3 & Hc3).
  assert (Hev : mask_events es st = fst (handleMaskDraw (pointer_at mouseup release) st2)).
  { subst es. rewrite mask_events_cons. fold st1. rewrite mask_events_app. reflexivity. }
  assert (Hbit : bitmap canvas' = painted).
  { subst painted. cbn [with_bitmap bitmap draw width height ops rect_left rect_top] in *.
    destruct (bitmap canvas') as [bw bh bops]. cbn [width height ops] in *.
    subst bw bh. rewrite Hops, Hf. rewrite <- app_assoc. reflexivity. }
  split.
  - subst es. rewrite (mask_throws_quiet _ _ _ Hq). fold st1.
    rewrite mask_throws_app, Ht. fold st2. cbn [app mask_throws].
    destruct (handleMaskDraw (pointer_at mouseup release) st2) as [s o]. cbn [snd] in Hq3.
    subst o. reflexivity.
  - rewrite Hev, Hmask, Hd3, Hbit. repeat split. exists canvas'. split; assumption.
Qed.

Lemma X13_stroke_is_exported_witness :
  maskDataUrl (feat (mask_events
     [pointer_at mousedown (mkPoint 30 30); pointer_at mousemove (mkPoint 50 30);
      pointer_at mousemove (mkPoint 50 60); pointer_at mouseup (mkPoint 50 60)] masking))
  = Some (mkRaster 100 100
            (FillArc (local_point (mkElement 0 0 true 1 (blank 100 100)) (mkPoint 30 30)) (40 / 2)
             :: polyline (local_point (mkElement 0 0 true 1 (blank 100 100)) (mkPoint 30 30))
                  (map (local_point (mkElement 0 0 true 1 (blank 100 100)))
                       [mkPoint 50 30; mkPoint 50 60]) 40)).
Proof.
  destruct (X13_stroke_is_exported masking (mkElement 0 0 true 1 (blank 100 100))
              (mkPoint 30 30) (mkPoint 50 60) [mkPoint 50 30; mkPoint 50 60]
              eq_refl eq_refl eq_refl eq_refl) as (_ & H & _).
  exact H.
Defined.

(** X14.  Pointer events on the mask canvas only add paint: after any
    sequence of them no pixel is less opaque than before, for any rasteriser
    that reports covered fractions; and they never touch the history. *)
Theorem X14_painting_only_adds (coverage : PaintOp -> Z * Z -> Q)
    (es : list PointerEvent) (st : App) (pixel : Z * Z) :
  fraction coverage ->
  (canvas_alpha coverage st pixel <= canvas_alpha coverage (mask_events es st) pixel)%Q
  /\ hist (mask_events es st) = hist st
  /\ tool (mask_events es st) = tool st.
Proof.
  intros Hf. revert st. induction es as [|e es IH]; intros st.
  - cbn. repeat split. apply Qle_refl.
  - rewrite mask_events_cons.
    destruct (IH (fst (handleMaskDraw e st))) as (Ha & Hh & Ht).
    destruct (handleMaskDraw_frame e st) as (Hh1 & Ht1 & _).
    split; [|split; congruence].
    eapply Qle_trans; [apply (handleMaskDraw_alpha coverage e st pixel Hf) | exact Ha].
Qed.

Lemma X14_painting_only_adds_witness :
  (canvas_alpha hard_coverage masking (40, 30)%Z
   <= canvas_alpha hard_coverage two_stamps (40, 30)%Z)%Q.
Proof.
  destruct (X14_painting_only_adds hard_coverage
              [mouse mousedown 30 30; mouse mouseup 30 30;
               mouse mousedown 50 30; mouse mouseup 50 30] masking (40, 30)%Z
              hard_coverage_fraction) as (H & _).
  exact H.
Defined.

(** X16.  Moving over the canvas without a stroke in progress changes
    nothing, however many moves there are. *)
Theorem X16_hovering_changes_nothing (es : list PointerEvent) (st : App) :
  forallb is_move es = true -> isDrawingRef (refs st) = false ->
  mask_events es st = st.
Proof.
  revert st. induction es as [|e es IH]; intros st Hes Hd; [reflexivity|].
  cbn [forallb] in Hes. apply andb_true_iff in Hes as [He Hes].
  rewrite mask_events_cons.
  assert (H1 : fst (handleMaskDraw e st) = st).
  { unfold handleMaskDraw, client_point. unfold is_move in He. rewrite Hd.
    repeat match goal with
      | |- context [match ?x with _ => _ end] => destruct x eqn:?
      end; try reflexivity; discriminate. }
  rewrite H1. apply IH; assumption.
Qed.

Lemma X16_hovering_changes_nothing_witness :
  mask_events [mouse mousemove 10 10; mouse mousemove 20 15; touch touchmove [mkPoint 3 4]]
              masking = masking.
Proof. apply X16_hovering_changes_nothing; reflexivity. Defined.

(** ** Clearing the mask, and toasts *)

Section Clearing.

Lemma clear_rect_covers (pixel : Z * Z) :
  0 <= fst pixel < 9999 -> 0 <= snd pixel < 9999 ->
  hard_coverage (ClearRect 0 0 9999 9999) pixel = 1%Q.
Proof.
  intros [Hx1 Hx2] [Hy1 Hy2]. unfold hard_coverage, in_rect, centre_of. cbn [px py].
  assert (Hq : forall i : Z, 0 <= i < 9999 ->
            Qle_bool 0 (inject_Z i + (1 # 2)) = true
            /\ Qle_bool (inject_Z i + (1 # 2)) (0 + 9999) = true).
  { intros i [Hi1 Hi2].
    assert (H1 : (inject_Z 0 <= inject_Z i)%Q) by (rewrite <- Zle_Qle; exact Hi1).
    assert (H2 : (inject_Z i <= inject_Z 9998)%Q) by (rewrite <- Zle_Qle; lia).
    change (inject_Z 0) with 0%Q in H1. change (inject_Z 9998) with 9998%Q in H2.
    clear Hi1 Hi2. split; apply Qle_bool_iff; lra. }
  destruct (Hq _ (conj Hx1 Hx2)) as [-> ->]. destruct (Hq _ (conj Hy1 Hy2)) as [-> ->].
  reflexivity.
Qed.

End Clearing.

(** X15.  "Clear Mask" drops the exported mask and, on a canvas of at most
    9999 by 9999 pixels, leaves no painted pixel, whatever had been drawn;
    the history is untouched. *)
Theorem X15_clear_mask_blanks_canvas (st : App) (canvas : Element) :
  maskCanvasRef (refs st) = Some canvas -> context2d canvas = true ->
  width (bitmap canvas) <= 9999 -> height (bitmap canvas) <= 9999 ->
  maskDataUrl (feat (MagicPanel.onClearMask st)) = None
  /\ hist (MagicPanel.onClearMask st) = hist st
  /\ forall pixel, (canvas_alpha hard_coverage (MagicPanel.onClearMask st) pixel == 0)%Q.
Proof.
  intros Hc Hx Hw Hh. unfold MagicPanel.onClearMask. rewrite Hc, Hx.
  split; [reflexivity|]. split; [reflexivity|].
  intros pixel. unfold canvas_alpha.
  cbn [refs MagicPanel.setMaskDataUrl with_feat with_refs maskCanvasRef with_bitmap bitmap].
  unfold alpha_at, draw. cbn [width height ops].
  destruct (in_bounds _ pixel) eqn:Hb; [|reflexivity].
  unfold in_bounds in Hb. cbn [width height] in Hb.
  apply andb_true_iff in Hb as [Hb Hb4]. apply andb_true_iff in Hb as [Hb Hb3].
  apply andb_true_iff in Hb as [Hb1 Hb2].
  apply Z.leb_le in Hb1, Hb3. apply Z.ltb_lt in Hb2, Hb4.
  rewrite (alpha_of_snoc hard_coverage). cbn [apply_op].
  rewrite clear_rect_covers by lia.
  rewrite (store8_eq _ 0%Q) by ring. reflexivity.
Qed.

Lemma X15_clear_mask_blanks_canvas_witness :
  (canvas_alpha hard_coverage (MagicPanel.onClearMask two_stamps) (40, 30)%Z == 0)%Q.
Proof.
  destruct (X15_clear_mask_blanks_canvas two_stamps
              (mkElement 0 0 true 1
                 (mkRaster 100 100 [FillArc (mkPoint 30 30) (40 # 2);
                                    FillArc (mkPoint 50 30) (40 # 2)])))
    as (_ & _ & H).
  - vm_compute. reflexivity.
  - reflexivity.
  - vm_compute. discriminate.
  - vm_compute. discriminate.
  - apply H.
Defined.

(** X17.  A toast is removed by the timer set when it was added: if no
    toast on screen already has the identifier of that millisecond, adding a
    toast and letting its timer fire gives back the state before; two toasts
    added in the same millisecond share the identifier and go together. *)
Theorem X17_toast_expires (w : World) (m1 m2 : string) (t1 t2 : ToastType) (st : App) :
  Forall (fun t => toast_id t <> pretty (now w)) (toasts (tool st)) ->
  expireToast (pretty (now w)) (addToast w m1 t1 st) = st
  /\ expireToast (pretty (now w)) (addToast w m2 t2 (addToast w m1 t1 st)) = st.
Proof.
  intros H.
  assert (Hkeep : filter (fun m => toast_id m <> pretty (now w)) (toasts (tool st))
                  = toasts (tool st)).
  { induction (toasts (tool st)) as [|x l IH]; [reflexivity|].
    apply Forall_cons_1 in H as [Hx Hl]. rewrite filter_cons_True by exact Hx.
    rewrite (IH Hl). reflexivity. }
  unfold expireToast, addToast.
  cbn [tool with_tool toasts activeTool prompt isLoading].
  rewrite <- !app_assoc. rewrite !filter_app, Hkeep.
  split.
  - rewrite filter_cons_False by (cbn; intros Hn; apply Hn; reflexivity).
    rewrite filter_nil, app_nil_r. destruct st as [h [a p l ts] fe r]. reflexivity.
  - cbn [app]. rewrite filter_cons_False by (cbn; intros Hn; apply Hn; reflexivity).
    rewrite filter_cons_False by (cbn; intros Hn; apply Hn; reflexivity).
    rewrite filter_nil, app_nil_r. destruct st as [h [a p l ts] fe r]. reflexivity.
Qed.

Lemma X17_toast_expires_witness :
  expireToast "7" (addToast (fresh_world 7) "Layer added" toast_success (editing [fileA] 0))
  = editing [fileA] 0.
Proof.
  destruct (X17_toast_expires (fresh_world 7) "Layer added" "x" toast_success toast_info
              (editing [fileA] 0) ltac:(constructor)) as [H _].
  exact H.
Defined.

(** ** Batch mode *)

Section BatchRun.

Import Batch.

Variable s : State.
Variable outcome : nat -> Completion string.

Implicit Types (it item : BatchItem) (l live pre rest : list BatchItem).

Lemma update_other (i : string) (f : BatchItem -> BatchItem) l :
  i ∉ map id l -> update i f l = l.
Proof.
  induction l as [|x l IH]; intros H; [reflexivity|].
  cbn [map] in H. apply not_elem_of_cons in H as [Hx Hl].
  cbn [update map]. fold (update i f l). rewrite (IH Hl).
  destruct (String.eqb (id x) i) eqn:E; [|reflexivity].
  apply String.eqb_eq in E. congruence.
Qed.

Lemma update_unique (i : string) (f : BatchItem -> BatchItem) pre item rest :
  id item = i -> i ∉ map id pre -> i ∉ map id rest ->
  update i f (pre ++ item :: rest) = pre ++ f item :: rest.
Proof.
  intros <- Hp Hr. unfold update. rewrite map_app. cbn [map].
  fold (update (id item) f pre) (update (id item) f rest).
  rewrite (update_other _ f pre Hp), (update_other _ f rest Hr), String.eqb_refl.
  reflexivity.
Qed.

Lemma update_ids (i : string) (f : BatchItem -> BatchItem) l :
  (forall it, id (f it) = id it /\ file (f it) = file it) ->
  map id (update i f l) = map id l /\ map file (update i f l) = map file l.
Proof.
  intros Hf. induction l as [|x l [IH1 IH2]]; [split; reflexivity|].
  cbn [update map]. fold (update i f l). rewrite IH1, IH2.
  destruct (String.eqb (id x) i); [|split; reflexivity].
  destruct (Hf x) as [-> ->]. split; reflexivity.
Qed.

Lemma iteration_ids (i : nat) item live (sent : list Request) :
  map id (fst (iteration s outcome i item (live, sent))) = map id live
  /\ map file (fst (iteration s outcome i item (live, sent))) = map file live
  /\ exists extra, snd (iteration s outcome i item (live, sent)) = sent ++ extra
                   /\ Forall (fun r => r = processItem s item) extra.
Proof.
  unfold iteration. destruct (is_done item).
  - cbn [fst snd]. repeat split. exists []. rewrite app_nil_r. split; [reflexivity | constructor].
  - destruct (outcome i) as [url|e]; cbn [fst snd].
    + destruct (update_ids (id item) (set_done url)
                  (update (id item) (mark st_processing) live)
                  ltac:(intros; split; reflexivity)) as [-> ->].
      destruct (update_ids (id item) (mark st_processing) live
                  ltac:(intros; split; reflexivity)) as [-> ->].
      repeat split. eexists. split; [reflexivity|]. repeat constructor.
    + destruct (update_ids (id item) (set_error e)
                  (update (id item) (mark st_processing) live)
                  ltac:(intros; split; reflexivity)) as [-> ->].
      destruct (update_ids (id item) (mark st_processing) live
                  ltac:(intros; split; reflexivity)) as [-> ->].
      repeat split. eexists. split; [reflexivity|]. repeat constructor.
Qed.

(** Whatever the identifiers, the loop keeps the identifiers and the files
    of the queue in place, and every call it makes is for an item of the
    list it runs over. *)
Lemma loop_ids rest : forall (i : nat) live (sent : list Request),
  map id (fst (loop s outcome i rest (live, sent))) = map id live
  /\ map file (fst (loop s outcome i rest (live, sent))) = map file live
  /\ exists extra, snd (loop s outcome i rest (live, sent)) = sent ++ extra
                   /\ Forall (fun r => exists item, item ∈ rest /\ r = processItem s item) extra.
Proof.
  induction rest as [|item rest IH]; intros i live sent.
  - cbn. repeat split. exists []. rewrite app_nil_r. split; [reflexivity | constructor].
  - cbn [loop].
    destruct (iteration_ids i item live sent) as (H1 & H2 & extra1 & H3 & H4).
    destruct (iteration s outcome i item (live, sent)) as [live1 sent1]. cbn [fst snd] in *.
    destruct (IH (S i) live1 sent1) as (G1 & G2 & extra2 & G3 & G4).
    split; [congruence|]. split; [congruence|].
    exists (extra1 ++ extra2). split; [rewrite G3, H3, app_assoc; reflexivity|].
    apply Forall_app. split.
    + eapply Forall_impl; [exact H4|]. intros r ->. exists item. split; [left|reflexivity].
    + eapply Forall_impl; [exact G4|]. intros r (x & Hx & ->). exists x.
      split; [right; exact Hx | reflexivity].
Qed.

Lemma loop_all_done rest : forall (i : nat) (lr : list BatchItem * list Request),
  forallb is_done rest = true -> loop s outcome i rest lr = lr.
Proof.
  induction rest as [|item rest IH]; intros i lr H; [reflexivity|].
  cbn [forallb] in H. apply andb_true_iff in H as [Hd Hr].
  cbn [loop]. unfold iteration. destruct lr as [live sent]. rewrite Hd. apply IH, Hr.
Qed.

(** With distinct identifiers the loop settles the items one by one. *)
Lemma loop_settles rest : forall (i : nat) pre (sent : list Request),
  NoDup (map id (pre ++ rest)) ->
  loop s outcome i rest (pre ++ rest, sent)
  = (pre ++ imap (fun k => settle outcome (i + k)) rest,
     sent ++ map (processItem s) (filter (fun it => is_done it = false) rest)).
Proof.
  induction rest as [|item rest IH]; intros i pre sent Hnd.
  - cbn. rewrite !app_nil_r. reflexivity.
  - cbn [loop]. rewrite imap_cons. rewrite Nat.add_0_r.
    assert (Hnd' : forall x, id x = id item -> NoDup (map id ((pre ++ [x]) ++ rest))).
    { intros x Hx. rewrite <- app_assoc. cbn [app]. rewrite map_app in *. cbn [map] in *.
      rewrite Hx. exact Hnd. }
    assert (Hout : (id item ∉ map id pre) /\ (id item ∉ map id rest)).
    { rewrite map_app in Hnd. cbn [map] in Hnd.
      apply NoDup_app in Hnd as (_ & Hdis & Hr). apply NoDup_cons in Hr as [Hr _].
      split; [|exact Hr]. intros Hin. apply (Hdis _ Hin). left. }
    destruct Hout as [Hp Hr].
    rewrite (imap_ext _ (fun k => settle outcome (S i + k)) rest)
      by (intros k x _; cbn; f_equal; lia).
    unfold iteration, settle at 1. destruct (is_done item) eqn:Hd.
    + rewrite filter_cons_False by (rewrite Hd; discriminate).
      specialize (IH (S i) (pre ++ [item]) sent (Hnd' item eq_refl)).
      rewrite <- !app_assoc in IH. cbn [app] in IH. exact IH.
    + rewrite filter_cons_True by exact Hd. cbn [map].
      rewrite (update_unique _ (mark st_processing) pre item rest eq_refl Hp Hr).
      destruct (outcome i) as [url|e].
      * rewrite (update_unique (id item) (set_done url) pre (mark st_processing item) rest
                   eq_refl Hp Hr).
        specialize (IH (S i) (pre ++ [set_done url item]) (sent ++ [processItem s item])
                       (Hnd' (set_done url item) eq_refl)).
        rewrite <- !app_assoc in IH. cbn [app] in IH. exact IH.
      * rewrite (update_unique (id item) (set_error e) pre (mark st_processing item) rest
                   eq_refl Hp Hr).
        specialize (IH (S i) (pre ++ [set_error e item]) (sent ++ [processItem s item])
                       (Hnd' (set_error e item) eq_refl)).
        rewrite <- !app_assoc in IH. cbn [app] in IH. exact IH.
Qed.

End BatchRun.

(** X18.  With distinct identifiers and the guard of "Run" passed, a batch
    leaves every item that was done as it was, without calling the service
    for it, and makes of every other item, in order, a done item with the
    URL its call returned or an error item with the message of what its
    call threw; the calls are exactly those for the items that were not
    done, in the order of the queue, and no item is left pending or
    processing. *)
Theorem X18_batch_settles_every_item (outcome : nat -> Completion string) (s : Batch.State) :
  NoDup (map Batch.id (Batch.items s)) -> Batch.cannot_start s = false ->
  Batch.startBatch outcome s
  = (Batch.mkState (imap (Batch.settle outcome) (Batch.items s))
                   (Batch.operation s) (Batch.prompt s) false,
     map (Batch.processItem s)
         (filter (fun it => Batch.is_done it = false) (Batch.items s)))
  /\ Forall (fun it => Batch.status it = Batch.st_done \/ Batch.status it = Batch.st_error)
            (Batch.items (fst (Batch.startBatch outcome s))).
Proof.
  intros Hnd Hg.
  assert (E : Batch.startBatch outcome s
              = (Batch.mkState (imap (Batch.settle outcome) (Batch.items s))
                               (Batch.operation s) (Batch.prompt s) false,
                 map (Batch.processItem s)
                     (filter (fun it => Batch.is_done it = false) (Batch.items s)))).
  { unfold Batch.startBatch. rewrite Hg.
    pose proof (loop_settles s outcome (Batch.items s) 0 [] [] Hnd) as Hl.
    cbn [app] in Hl. rewrite Hl. reflexivity. }
  split; [exact E|]. rewrite E. cbn [fst Batch.items].
  apply Forall_forall. intros it Hin. apply elem_of_lookup_imap in Hin as (i & x & -> & _).
  unfold Batch.settle, Batch.is_done.
  destruct (Batch.status x) eqn:Hs; cbn; rewrite ?Hs;
    try (destruct (outcome i); cbn; auto); auto.
Qed.

Lemma X18_batch_settles_every_item_witness :
  let queue := [Batch.mkItem "a1" fileA Batch.st_pending None None;
                Batch.mkItem "b2" fileB Batch.st_done (Some "data:image/png;base64,SGk=") None;
                Batch.mkItem "c3" fileC Batch.st_error None (Some "quota")] in
  let s := Batch.mkState queue Batch.op_removeBg "" false in
  let outcome (i : nat) : Completion string :=
    match i with
    | O => Throw (ErrorObj "Request blocked: SAFETY")
    | _ => Normal "data:image/png;base64,QQ=="
    end in
  snd (Batch.startBatch outcome s)
  = [generateRemovedBackgroundImage fileA; generateRemovedBackgroundImage fileC]
  /\ map Batch.status (Batch.items (fst (Batch.startBatch outcome s)))
     = [Batch.st_error; Batch.st_done; Batch.st_done].
Proof.
  intros queue s outcome.
  destruct (X18_batch_settles_every_item outcome s) as [E _].
  - apply (bool_decide_unpack _). vm_compute. exact I.
  - reflexivity.
  - rewrite E. split; reflexivity.
Defined.

(** X19.  Whatever the identifiers, a batch neither drops nor reorders nor
    swaps anything: the queue afterwards has the same identifiers and the
    same files in the same positions, and every call made is the call of the
    chosen operation for a file of the queue. *)
Theorem X19_batch_keeps_queue (outcome : nat -> Completion string) (s : Batch.State) :
  map Batch.id (Batch.items (fst (Batch.startBatch outcome s))) = map Batch.id (Batch.items s)
  /\ map Batch.file (Batch.items (fst (Batch.startBatch outcome s)))
     = map Batch.file (Batch.items s)
  /\ Batch.operation (fst (Batch.startBatch outcome s)) = Batch.operation s
  /\ Batch.prompt (fst (Batch.startBatch outcome s)) = Batch.prompt s
  /\ Forall (fun r => exists item, item ∈ Batch.items s /\ r = Batch.processItem s item)
            (snd (Batch.startBatch outcome s)).
Proof.
  unfold Batch.startBatch. destruct (Batch.cannot_start s).
  - cbn [fst snd]. repeat split. constructor.
  - destruct (loop_ids s outcome (Batch.items s) 0 (Batch.items s) [])
      as (H1 & H2 & extra & H3 & H4).
    destruct (Batch.loop s outcome 0 (Batch.items s) (Batch.items s, [])) as [live sent].
    cbn [fst snd Batch.items Batch.operation Batch.prompt] in *.
    subst sent. repeat split; assumption.
Qed.

(** X20.  Running a batch whose items are all done calls nothing and
    changes no item. *)
Theorem X20_finished_batch_is_free (outcome : nat -> Completion string) (s : Batch.State) :
  forallb Batch.is_done (Batch.items s) = true ->
  snd (Batch.startBatch outcome s) = []
  /\ Batch.items (fst (Batch.startBatch outcome s)) = Batch.items s.
Proof.
  intros H. unfold Batch.startBatch. destruct (Batch.cannot_start s); [split; reflexivity|].
  rewrite (loop_all_done s outcome (Batch.items s) 0 _ H). split; reflexivity.
Qed.

Lemma X20_finished_batch_is_free_witness :
  let s := Batch.mkState [Batch.mkItem "b2" fileB Batch.st_done (Some "u") None]
                         Batch.op_filter "sepia" false in
  snd (Batch.startBatch (fun _ => Throw OtherValue) s) = [].
Proof.
  intros s. destruct (X20_finished_batch_is_free (fun _ => Throw OtherValue) s eq_refl) as [H _].
  exact H.
Defined.

(** ** What does not edit, and what a video generation returns *)



(** X22.  When the first operation that is not pending is a finished one,
    seen at the k-th test of the loop, [generateVeoVideo] returns, for every
    number of iterations above k, the address of that operation with
    ["&key="] and the API key appended, and throws "Video generation failed
    or no URI returned." when that operation carries no address or an empty
    one. *)
Theorem X22_video_address_of_first_done (reply : nat -> Completion Veo.Operation)
    (api_key : string) (submitted op : Veo.Operation) (k n : nat) :
  (forall j, (j < k)%nat -> Veo.pending (Veo.observed reply submitted j)) ->
  Veo.observed reply submitted k = Normal op -> Veo.done op = true -> (k < n)%nat ->
  Veo.generateVeoVideo_from reply api_key n submitted = Some (video_address api_key op).
Proof.
  intros Hpend Hk Hdone Hn. unfold Veo.generateVeoVideo_from.
  replace n with (k + S (n - S k))%nat by lia. rewrite run_add.
  rewrite (run_polling reply k (Veo.start submitted) op Hpend Hk).
  cbn [Veo.run]. unfold Veo.iteration. cbn [Veo.operation]. rewrite Hdone.
  cbn [Veo.operation]. unfold video_address. destruct (Veo.uri op) as [u|]; [|reflexivity].
  destruct (truthy u); reflexivity.
Qed.

Lemma X22_video_address_of_first_done_witness :
  Veo.generateVeoVideo_from done_at_third "KEY" 7 (Veo.mkOperation false None)
  = Some (Normal "https://videos.example/v1?alt=media&key=KEY").
Proof.
  rewrite (X22_video_address_of_first_done done_at_third "KEY" (Veo.mkOperation false None)
             (Veo.mkOperation true (Some "https://videos.example/v1?alt=media")) 3 7).
  - reflexivity.
  - intros [|[|[|j]]] Hj; [eexists; split; reflexivity ..| lia].
  - reflexivity.
  - reflexivity.
  - lia.
Defined.

(** ** Results that arrive late *)

Section Late.

Implicit Types (st : App) (w : World) (ev : AppEvent).

Lemma beginGenAction_calls closure action filename st w :
  let b := beginGenAction closure action filename st w in
  sessions (snd b) = sessions w
  /\ ((calls (snd b) = calls w /\ requests (snd b) = requests w
       /\ index (history closure) (historyIndex closure) = None)
      \/ exists image, index (history closure) (historyIndex closure) = Some image
           /\ calls (snd b) = calls w ++ [GenCall closure filename]
           /\ requests (snd b) = requests w ++ [action image]).
Proof.
  cbv zeta. unfold beginGenAction. destruct (index _ _) as [image|];
    (split; [reflexivity|]); [right; exists image | left]; repeat split.
Qed.

(** An event that is neither the settling of a call nor a reload leaves
    the calls in flight and the sessions where they are, and may add some. *)
Lemma app_step_keeps_calls ev save st w :
  keeps_calls ev = true ->
  (exists l, calls (snd (app_step (ev, save) (st, w))) = calls w ++ l)
  /\ (exists l, sessions (snd (app_step (ev, save) (st, w))) = sessions w ++ l).
Proof.
  intros Hk. unfold app_step. cbn [fst snd].
  assert (H : (exists l, calls (snd (app_handle ev (st, w))) = calls w ++ l)
              /\ (exists l, sessions (snd (app_handle ev (st, w))) = sessions w ++ l)).
  { destruct ev as [op|a|k c|k s|rendered| |outcome| |e| | | | | | | | | | | | | | |io|];
      try discriminate.
    - destruct op; cbn; split; exists []; rewrite app_nil_r; reflexivity.
    - cbn [app_handle].
      assert (Hb : forall action filename,
                 (exists l, calls (snd (beginGenAction (hist st) action filename st w))
                            = calls w ++ l)
                 /\ (exists l, sessions (snd (beginGenAction (hist st) action filename st w))
                               = sessions w ++ l)).
      { intros action filename.
        destruct (beginGenAction_calls (hist st) action filename st w)
          as (Hs & [(Hc & _)|(image & _ & Hc & _)]); rewrite Hs, Hc;
          split; eexists; try reflexivity; rewrite app_nil_r; reflexivity. }
      destruct a; cbn [begin_action]; unfold beginRetouch, beginMagicFill;
        repeat match goal with
          | |- context [match ?x with _ => _ end] => destruct x eqn:?
          end; try apply Hb; cbn [snd]; split; exists []; rewrite app_nil_r; reflexivity.
    - cbn [app_handle]. unfold toolCall. destruct (sessions w !! k) as [closure|];
        [|cbn; split; exists []; rewrite app_nil_r; reflexivity].
      destruct (beginGenAction_calls closure (tool_request c) (tool_filename c) st w)
        as (Hs & [(Hc & _)|(image & _ & Hc & _)]); rewrite Hs, Hc;
        split; eexists; try reflexivity; rewrite app_nil_r; reflexivity.
    - cbn; split; exists []; rewrite app_nil_r; reflexivity.
    - cbn [app_handle]. unfold beginAnalysis. destruct (currentImage st); cbn [snd].
      + split; [exists [AnalysisCall] | exists []; rewrite app_nil_r]; reflexivity.
      + split; exists []; rewrite app_nil_r; reflexivity.
    - cbn [app_handle]. unfold onAnalyzeVideo. destruct outcome; cbn;
        split; exists []; rewrite app_nil_r; reflexivity.
    - cbn; split; exists []; rewrite app_nil_r; reflexivity.
    - cbn; split; exists []; rewrite app_nil_r; reflexivity.
    - cbn; split; exists []; rewrite app_nil_r; reflexivity.
    - cbn; split; exists []; rewrite app_nil_r; reflexivity.
    - cbn; split; exists []; rewrite app_nil_r; reflexivity.
    - cbn; split; exists []; rewrite app_nil_r; reflexivity.
    - cbn; split; exists []; rewrite app_nil_r; reflexivity.
    - cbn; split; exists []; rewrite app_nil_r; reflexivity.
    - cbn; split; exists []; rewrite app_nil_r; reflexivity.
    - cbn; split; exists []; rewrite app_nil_r; reflexivity.
    - cbn; split; exists []; rewrite app_nil_r; reflexivity.
    - cbn; split; exists []; rewrite app_nil_r; reflexivity.
    - cbn; split; exists []; rewrite app_nil_r; reflexivity.
    - cbn; split; exists []; rewrite app_nil_r; reflexivity.
    - cbn [app_handle snd]. split; [exists []; rewrite app_nil_r | exists [hist st]]; reflexivity.
    - cbn; split; exists []; rewrite app_nil_r; reflexivity.
    - cbn [app_handle]. unfold idb_next.
      destruct (idb w) as [|[r io att] rest];
        [cbn; split; exists []; rewrite app_nil_r; reflexivity|].
      destruct r as [h i| |], io as [|err], att;
        cbn [job_request job_io job_attached saveSession clearSession handleClear fst snd];
        unfold loadEffect, loadSession; cbn [with_idb db];
        repeat match goal with
          | |- context [match ?x with _ => _ end] => destruct x
          end; cbn; split; exists []; rewrite app_nil_r; reflexivity. }
  destruct (app_handle ev (st, w)) as [st' w']. cbn [fst snd] in *.
  destruct (_ || _); cbn [snd]; [|exact H].
  unfold startSave. destruct (0 <? _); exact H.
Qed.

Lemma app_run_keeps_calls (evs : list (AppEvent * Io)) : forall (sw : App * World),
  Forall (fun e => keeps_calls (fst e) = true) evs ->
  (exists l, calls (snd (app_run evs sw)) = calls (snd sw) ++ l)
  /\ (exists l, sessions (snd (app_run evs sw)) = sessions (snd sw) ++ l).
Proof.
  induction evs as [|[ev save] evs IH]; intros [st w] H.
  - split; exists []; rewrite app_nil_r; reflexivity.
  - apply Forall_cons_1 in H as [He H]. cbn [fst] in He. cbn [app_run foldl].
    destruct (app_step_keeps_calls ev save st w He) as [(l1 & H1) (l2 & H2)].
    destruct (IH (app_step (ev, save) (st, w)) H) as [(l3 & H3) (l4 & H4)].
    unfold app_run in H3, H4. rewrite H3, H4, H1, H2. cbn [snd].
    split; eexists; rewrite <- app_assoc; reflexivity.
Qed.

End Late.

(** X23.  A result is appended to the history of the render that made the
    call, not to the one on screen.  Whatever happens between the call and
    its result short of a reload (undo, redo, other edits, a reset, saves),
    when the result is a data URL that [dataURLtoFile] accepts the history
    becomes the snapshots of that render up to its cursor followed by the
    new file, which is the current image; a save of it is requested. *)
Theorem X23_late_result_lands_in_its_closure (evs : list (AppEvent * Io)) (k : nat)
    (closure : HistoryState) (filename url : string) (file : File) (save : Io)
    (sw : App * World) :
  calls (snd sw) !! k = Some (GenCall closure filename) ->
  Forall (fun e => keeps_calls (fst e) = true) evs ->
  dataURLtoFile url filename = Normal file ->
  let after := app_step (Settle k (Generated (Normal url)), save) (app_run evs sw) in
  history (hist (fst after))
  = slice (history closure) 0 (historyIndex closure + 1) ++ [file]
  /\ cursor (fst after) = length_of (fst after) - 1
  /\ currentImage (fst after) = Some file
  /\ isLoading (tool (fst after)) = false
  /\ idb (snd after)
     = idb (snd (app_run evs sw))
       ++ [mkJob (PutSession (history (hist (fst after))) (cursor (fst after))) save true].
Proof.
  intros Hc Hk Hf after.
  destruct (app_run_keeps_calls evs sw Hk) as [(l & Hl) _].
  destruct (app_run evs sw) as [st w] eqn:Er. cbn [snd] in Hl.
  assert (Hk' : calls w !! k = Some (GenCall closure filename)).
  { rewrite Hl. apply lookup_app_l_Some, Hc. }
  subst after. unfold app_step. cbn [fst snd app_handle sets_history].
  unfold settle. rewrite Hk'. unfold endGenAction. rewrite Hf. cbn [orb fst snd].
  unfold startSave. cbn [hist setIsLoading with_tool].
  rewrite addToHistory_hist. cbn [history historyIndex hist with_hist].
  change (cursor (with_hist closure st)) with (historyIndex closure).
  set (newHist := slice (history closure) 0 (historyIndex closure + 1) ++ [file]).
  assert (Hlen : (0 <? Z.of_nat (length newHist)) = true).
  { apply Z.ltb_lt. subst newHist. rewrite length_app. cbn [length]. lia. }
  rewrite Hlen. cbn [fst snd].
  assert (Hh : hist (setIsLoading false (addToHistory w file (with_hist closure st)))
               = mkHistory newHist (Z.of_nat (length newHist) - 1)).
  { rewrite hist_setIsLoading, addToHistory_hist. reflexivity. }
  split; [reflexivity|].
  split; [unfold cursor, length_of; rewrite Hh; reflexivity|].
  split; [exact (addToHistory_currentImage w file (with_hist closure st))|].
  split; [reflexivity|].
  unfold cursor. rewrite Hh. reflexivity.
Qed.

Lemma X23_late_result_lands_in_its_closure_witness :
  let made := app_step (Gen (ApplyFilter "sepia"), io_ok) (editing [fileA; fileB] 1, fresh_world 0) in
  let evs := [(Store Undo, io_ok); (IdbNext, io_ok); (Store (Append fileC), io_ok)] in
  hist (fst (app_run evs made)) = mkHistory [fileA; fileC] 1
  /\ history (hist (fst (app_step (Settle 0 (Generated (Normal "data:image/png;base64,SGk=")), io_ok)
                                   (app_run evs made))))
     = [fileA; fileB; mkFile ["H"; "i"]%char "filt.png" "image/png"].
Proof.
  intros made evs. split; [reflexivity|].
  destruct (X23_late_result_lands_in_its_closure evs 0 (mkHistory [fileA; fileB] 1) "filt.png"
              "data:image/png;base64,SGk=" (mkFile ["H"; "i"]%char "filt.png" "image/png")
              io_ok made eq_refl ltac:(repeat constructor) eq_refl) as (H & _).
  exact H.
Defined.


